(** * The offline cache controller of the portfolio site (service worker)

    A shallow embedding of the worker script (registered as /sw.js by the
    page scripts): the three cache partitions, the request classifier, the
    four fetch strategies, the offline fallbacks, the FIFO trimming of the
    bounded partitions and the install handler.

    Conventions of the embedding.
    - An [async] function is a state transformer over the host's cache
      storage that also yields either a value (the promise fulfils) or an
      error (the promise rejects), together with the host calls it made, in
      program order.
    - The host is an explicit environment: what the network answers to a
      request and after how many milliseconds, and which cache operations
      fail.
    - The calls a handler awaits run in program order. A [cache.put] that
      is not awaited is started in program order, and its write lands when
      the host gets to it: before the next awaited call is answered, or
      once the handler has returned; which of the two is the host's.
    - The cache storage a strategy leaves is the storage once the writes
      it started have landed; the next event is looked at after that. *)

From Stdlib Require Import Ascii.
From stdpp Require Import gmap strings list pretty.

Open Scope string_scope.
Open Scope list_scope.

(** ** Strings *)

Module JsString.

(** [s.endsWith(suf)] *)
Fixpoint endsWith (s suf : string) : bool :=
  String.eqb s suf ||
  match s with
  | EmptyString => false
  | String _ s' => endsWith s' suf
  end.

(** [s.includes(sub)] *)
Fixpoint includes (s sub : string) : bool :=
  String.prefix sub s ||
  match s with
  | EmptyString => false
  | String _ s' => includes s' sub
  end.

End JsString.

Import JsString.

(** ** Request classification *)

(** The alternation of [/\.(css|js|woff2?|ttf|eot)$/], written out: the
    pattern is anchored at the end of the input only, so it matches exactly
    the paths that end in one of these. *)
Definition STATIC_SUFFIXES : list string :=
  [".css"; ".js"; ".woff"; ".woff2"; ".ttf"; ".eot"].

(** The alternation of [/\.(jpg|jpeg|png|webp|svg|gif)$/]. *)
Definition IMAGE_SUFFIXES : list string :=
  [".jpg"; ".jpeg"; ".png"; ".webp"; ".svg"; ".gif"].

(** [pathname.match(re)] is used for its truthiness only. *)
Definition isStaticAsset (pathname : string) : bool :=
  existsb (endsWith pathname) STATIC_SUFFIXES.

Definition isImage (pathname : string) : bool :=
  existsb (endsWith pathname) IMAGE_SUFFIXES.

Definition isHTMLPage (pathname : string) : bool :=
  String.eqb pathname "/" || endsWith pathname ".html" || negb (includes pathname ".").


(** ** Requests and responses *)

Record URL := { origin : string; pathname : string; search : string }.

#[global] Instance URL_eq_dec : EqDecision URL.
Proof. solve_decision. Defined.

Record Request := { method : string; url : URL }.

Record Response := {
  status : nat;
  statusText : string;
  headers : list (string * string);
  body : string
}.

(** The [ok] getter of a response: a status from 200 to 299, which is also
    how the site's fetch polyfill computes it
    ([xhr.status >= 200 && xhr.status < 300] in scripts/utils/polyfills.js). *)
Definition ok (r : Response) : bool :=
  ((200 <=? status r) && (status r <=? 299))%nat.

(** [new Response(body, init)]: status 200 and an empty status text unless
    [init] gives them; the headers are those of [init] (the content type a
    browser adds for a string body when [init] names none is left out). *)
Record ResponseInit := {
  init_status : option nat;
  init_statusText : option string;
  init_headers : list (string * string)
}.

Definition new_Response (body : string) (init : ResponseInit) : Response :=
  {| status := default 200 (init_status init);
     statusText := default EmptyString (init_statusText init);
     headers := init_headers init;
     body := body |}.

(** ** The host: network, cache storage, failures *)

Inductive CacheOp := OpOpen | OpMatch | OpPut | OpKeys | OpDelete | OpAddAll.

Inductive Error :=
| NetworkError
| JsError (message : string)
| BadResponse (key : URL)
| CacheFailure (op : CacheOp) (cacheName : string).

Inductive Settlement := Resolves (r : Response) | Rejects.

(** What a [fetch] of a request settles to, and after how many
    milliseconds. *)
Record NetOutcome := { settled : Settlement; latency : nat }.

(** [put_lands_first]: whether the write of a [cache.put] that is not
    awaited has landed when the next call the handler awaits is answered;
    otherwise it lands when the handler has returned. *)
Record Env := {
  location_origin : string;
  network : Request -> NetOutcome;
  cache_fault : CacheOp -> string -> bool;
  put_lands_first : bool
}.

(** The partition can be opened and looked up in. *)
Definition readable (env : Env) (name : string) : Prop :=
  cache_fault env OpOpen name = false /\ cache_fault env OpMatch name = false.

(** The host calls a handler makes, in program order. *)
Inductive Event :=
| EvFetch (request : Request)
| EvSetTimeout (ms : nat)
| EvCacheOpen (cacheName : string)
| EvCacheMatch (cacheName : string) (key : URL)
| EvCachePut (cacheName : string) (key : URL) (response : Response)
| EvCacheKeys (cacheName : string)
| EvCacheDelete (cacheName : string) (key : URL)
| EvCacheAddAll (cacheName : string) (keys : list URL)
| EvSkipWaiting
| EvConsoleError (message : string) (error : Error).

(** A cache partition keeps its entries in insertion order, which is the
    order [keys()] lists them in. *)
Abbreviation Cache := (list (URL * Response)).
Abbreviation CacheStorage := (gmap string Cache).

Definition partition (s : CacheStorage) (name : string) : Cache :=
  default [] (s !! name).

Definition set_partition (name : string) (c : Cache) (s : CacheStorage) : CacheStorage :=
  <[name := c]> s.

Fixpoint cache_find (key : URL) (c : Cache) : option Response :=
  match c with
  | [] => None
  | (k, r) :: c' => if decide (k = key) then Some r else cache_find key c'
  end.

Definition cache_remove (key : URL) (c : Cache) : Cache :=
  filter (fun e => e.1 <> key) c.

(** Writing a key drops the entry it had and appends the new one. *)
Definition cache_store (key : URL) (r : Response) (c : Cache) : Cache :=
  cache_remove key c ++ [(key, r)].

(** ** Asynchronous functions *)

Inductive Settled (A : Type) :=
| Fulfilled (a : A)
| Rejected (e : Error).
Arguments Fulfilled {A} a.
Arguments Rejected {A} e.

Record Outcome (A : Type) := {
  result : Settled A;
  storage : CacheStorage;
  events : list Event
}.
Arguments result {A} _.
Arguments storage {A} _.
Arguments events {A} _.

Definition Task (A : Type) : Type := CacheStorage -> Outcome A.

Definition ret {A} (a : A) : Task A :=
  fun s => {| result := Fulfilled a; storage := s; events := [] |}.

Definition throw {A} (e : Error) : Task A :=
  fun s => {| result := Rejected e; storage := s; events := [] |}.

(** The outcome [o] of what ran after the host calls [evs]. *)
Definition preceded_by {A} (evs : list Event) (o : Outcome A) : Outcome A :=
  match o with
  | {| result := r; storage := s; events := evs' |} =>
      {| result := r; storage := s; events := evs ++ evs' |}
  end.

(** [await t] and then go on with [k]. *)
Definition bind {A B} (t : Task A) (k : A -> Task B) : Task B :=
  fun s =>
    match t s with
    | {| result := Fulfilled a; storage := s'; events := evs |} =>
        preceded_by evs (k a s')
    | {| result := Rejected e; storage := s'; events := evs |} =>
        {| result := Rejected e; storage := s'; events := evs |}
    end.

(** [try { t } catch (error) { h error }] *)
Definition try_catch {A} (t : Task A) (h : Error -> Task A) : Task A :=
  fun s =>
    match t s with
    | {| result := Fulfilled a; storage := s'; events := evs |} =>
        {| result := Fulfilled a; storage := s'; events := evs |}
    | {| result := Rejected e; storage := s'; events := evs |} =>
        preceded_by evs (h e s')
    end.

Notation "x <- t ;; k" := (bind t (fun x => k))
  (at level 100, t at next level, right associativity).

(** [Promise.all(ts)]: every task has been started and runs on, whatever
    the others do; the result is the list of values, or the first
    rejection. *)
Fixpoint Promise_all {A} (ts : list (Task A)) : Task (list A) :=
  match ts with
  | [] => ret []
  | t :: ts' =>
      fun s =>
        match t s with
        | {| result := r; storage := s'; events := evs |} =>
            match Promise_all ts' s' with
            | {| result := rs; storage := s''; events := evs' |} =>
                {| result :=
                     match r, rs with
                     | Fulfilled a, Fulfilled l => Fulfilled (a :: l)
                     | Rejected e, _ => Rejected e
                     | Fulfilled _, Rejected e => Rejected e
                     end;
                   storage := s'';
                   events := evs ++ evs' |}
            end
        end
  end.

(** ** The worker's constants *)

Definition STATIC_CACHE : string := "portfolio-static-v1.1.0".
Definition DYNAMIC_CACHE : string := "portfolio-dynamic-v1.1.0".
Definition IMAGE_CACHE : string := "portfolio-images-v1.1.0".

Definition MAX_IMAGE_CACHE_SIZE : nat := 50.
Definition MAX_DYNAMIC_CACHE_SIZE : nat := 30.

Definition STATIC_ASSETS : list string :=
  [ "/";
    "/index.html";
    "/project-detail.html";
    "/styles/main.css";
    "/scripts/main.js";
    "/scripts/utils/imageOptimization.js";
    "/scripts/utils/imageManifest.js";
    "/scripts/components/lightbox.js";
    "/scripts/components/pageTransitions.js";
    "/manifest.json" ].

Definition CRITICAL_IMAGES : list string :=
  [ "/assets/images/project-1-medium.webp";
    "/assets/images/project-1-medium.jpg";
    "/assets/images/project-2-medium.webp";
    "/assets/images/project-2-medium.jpg";
    "/assets/images/project-3-medium.webp";
    "/assets/images/project-3-medium.jpg" ].

Definition NETWORK_TIMEOUT : nat := 3000.

(** The double quote, for the markup of the synthesized responses. *)
Definition dq : string := String (Ascii.ascii_of_nat 34) EmptyString.

Definition PLACEHOLDER_SVG : string :=
  "<svg width=" +:+ dq +:+ "400" +:+ dq +:+ " height=" +:+ dq +:+ "300" +:+ dq
  +:+ " xmlns=" +:+ dq +:+ "http://www.w3.org/2000/svg" +:+ dq
  +:+ "><rect width=" +:+ dq +:+ "100%" +:+ dq +:+ " height=" +:+ dq +:+ "100%" +:+ dq
  +:+ " fill=" +:+ dq +:+ "#f3f4f6" +:+ dq
  +:+ "/><text x=" +:+ dq +:+ "50%" +:+ dq +:+ " y=" +:+ dq +:+ "50%" +:+ dq
  +:+ " text-anchor=" +:+ dq +:+ "middle" +:+ dq +:+ " dy=" +:+ dq +:+ ".3em" +:+ dq
  +:+ " fill=" +:+ dq +:+ "#6b7280" +:+ dq
  +:+ ">Image unavailable</text></svg>".

Definition OFFLINE_HTML : string :=
  "<!DOCTYPE html>
    <html lang=" +:+ dq +:+ "en" +:+ dq +:+ ">
    <head>
      <meta charset=" +:+ dq +:+ "UTF-8" +:+ dq +:+ ">
      <meta name=" +:+ dq +:+ "viewport" +:+ dq +:+ " content="
  +:+ dq +:+ "width=device-width, initial-scale=1.0" +:+ dq +:+ ">
      <title>Offline - Rebecca Lee Jin Portfolio</title>
      <style>
        body { font-family: system-ui, sans-serif; text-align: center; padding: 2rem; }
        .offline-message { max-width: 400px; margin: 0 auto; }
        .offline-icon { font-size: 4rem; margin-bottom: 1rem; }
      </style>
    </head>
    <body>
      <div class=" +:+ dq +:+ "offline-message" +:+ dq +:+ ">
        <div class=" +:+ dq +:+ "offline-icon" +:+ dq +:+ ">📱</div>
        <h1>You're Offline</h1>
        <p>This page isn't available offline. Please check your internet connection and try again.</p>
        <button onclick=" +:+ dq +:+ "window.location.reload()" +:+ dq +:+ ">Try Again</button>
      </div>
    </body>
    </html>".

(** ** The worker *)

Section Worker.

Variable env : Env.

(** *** Host calls *)

(** A path given as a string names a URL of the worker's own origin. *)
Definition url_of_path (path : string) : URL :=
  {| origin := location_origin env; pathname := path; search := EmptyString |}.

Definition GET (key : URL) : Request := {| method := "GET"; url := key |}.

Definition fetch (request : Request) : Task Response :=
  fun s =>
    {| result := match settled (network env request) with
                 | Resolves r => Fulfilled r
                 | Rejects => Rejected NetworkError
                 end;
       storage := s;
       events := [EvFetch request] |}.

(** A cache operation that is awaited: it rejects when the host fails
    it, and acts on the storage otherwise. *)
Definition cache_call {A} (op : CacheOp) (name : string) (ev : Event)
    (act : CacheStorage -> A * CacheStorage) : Task A :=
  fun s =>
    if cache_fault env op name
    then {| result := Rejected (CacheFailure op name); storage := s; events := [ev] |}
    else {| result := Fulfilled (act s).1; storage := (act s).2; events := [ev] |}.

(** [caches.open(name)]: the partition is created empty when it is not
    there. The handle is the partition's name. *)
Definition caches_open (name : string) : Task string :=
  cache_call OpOpen name (EvCacheOpen name)
    (fun s => (name, set_partition name (partition s name) s)).

(** [cache.match(key)] *)
Definition cache_match (cache : string) (key : URL) : Task (option Response) :=
  cache_call OpMatch cache (EvCacheMatch cache key)
    (fun s => (cache_find key (partition s cache), s)).

(** The write of a put: nothing is stored when the host fails it. *)
Definition put_entry (cache : string) (key : URL) (response : Response)
    (s : CacheStorage) : CacheStorage :=
  if cache_fault env OpPut cache then s
  else set_partition cache (cache_store key response (partition s cache)) s.

(** [cache.put(key, response)], as the worker calls it: never awaited.
    The call returns at once and a failure of the write is not seen by the
    caller. What the handler awaits next sees the entry only on a host
    where the write lands first. *)
Definition cache_put (cache : string) (key : URL) (response : Response) : Task unit :=
  fun s =>
    {| result := Fulfilled tt;
       storage := if put_lands_first env then put_entry cache key response s else s;
       events := [EvCachePut cache key response] |}.

(** What a host call leaves to be done when the handler has returned: the
    write of a put that has not landed yet. *)
Definition land (s : CacheStorage) (ev : Event) : CacheStorage :=
  match ev with
  | EvCachePut cache key response =>
      if put_lands_first env then s else put_entry cache key response s
  | _ => s
  end.

(** A handler together with the writes it started and did not await:
    [storage] is the cache storage once the handler has returned and these
    writes have landed. *)
Definition settle {A} (t : Task A) : Task A :=
  fun s =>
    match t s with
    | {| result := r; storage := s'; events := evs |} =>
        {| result := r; storage := foldl land s' evs; events := evs |}
    end.

(** [cache.keys()] *)
Definition cache_keys (cache : string) : Task (list URL) :=
  cache_call OpKeys cache (EvCacheKeys cache)
    (fun s => ((partition s cache).*1, s)).

(** [cache.delete(key)]: whether there was an entry. *)
Definition cache_delete (cache : string) (key : URL) : Task bool :=
  cache_call OpDelete cache (EvCacheDelete cache key)
    (fun s => (bool_decide (is_Some (cache_find key (partition s cache))),
               set_partition cache (cache_remove key (partition s cache)) s)).

(** The responses [addAll] needs: every request answered, and answered
    with an [ok] status. *)
Fixpoint fetch_all_ok (keys : list URL) : Settled Cache :=
  match keys with
  | [] => Fulfilled []
  | key :: keys' =>
      match settled (network env (GET key)) with
      | Rejects => Rejected NetworkError
      | Resolves r =>
          if ok r then
            match fetch_all_ok keys' with
            | Fulfilled entries => Fulfilled ((key, r) :: entries)
            | Rejected e => Rejected e
            end
          else Rejected (BadResponse key)
      end
  end.

(** [cache.addAll(paths)]: all the paths are fetched; the entries are
    written together, and only when every fetch gave an [ok] response. *)
Definition cache_addAll (cache : string) (paths : list string) : Task unit :=
  fun s =>
    let keys := url_of_path <$> paths in
    let evs := EvCacheAddAll cache keys :: (EvFetch <$> (GET <$> keys)) in
    if cache_fault env OpAddAll cache
    then {| result := Rejected (CacheFailure OpAddAll cache); storage := s; events := evs |}
    else match fetch_all_ok keys with
         | Fulfilled entries =>
             {| result := Fulfilled tt;
                storage := set_partition cache
                             (foldl (fun c e => cache_store e.1 e.2 c)
                                    (partition s cache) entries) s;
                events := evs |}
         | Rejected e => {| result := Rejected e; storage := s; events := evs |}
         end.

Definition skipWaiting : Task unit :=
  fun s => {| result := Fulfilled tt; storage := s; events := [EvSkipWaiting] |}.

Definition console_error (message : string) (error : Error) : Task unit :=
  fun s => {| result := Fulfilled tt; storage := s;
              events := [EvConsoleError message error] |}.

(** *** Helpers of the strategies *)

(** Started by [handleStaticAsset] and not awaited; it catches what it
    throws. Here it has made its calls when the handler returns. *)
Definition updateCacheInBackground (request : Request) (cache : string) : Task unit :=
  try_catch
    (networkResponse <- fetch request ;;
     if ok networkResponse
     then cache_put cache (url request) networkResponse
     else ret tt)
    (fun error => ret tt).

(** The network races a timer that rejects: the network wins when it
    settles before the timer fires, and the timer wins otherwise (also
    when both fall on the same millisecond). The fetch is not cancelled. *)
Definition fetchWithTimeout (request : Request) (timeout : nat) : Task Response :=
  fun s =>
    match fetch request s with
    | {| result := r; storage := s'; events := evs |} =>
        {| result := if (latency (network env request) <? timeout)%nat
                     then r
                     else Rejected (JsError "Network timeout");
           storage := s';
           events := evs ++ [EvSetTimeout timeout] |}
    end.

Definition getPlaceholderImage : Task Response :=
  cache <- caches_open IMAGE_CACHE ;;
  placeholderResponse <- cache_match cache (url_of_path "/assets/images/placeholder.jpg") ;;
  match placeholderResponse with
  | Some r => ret r
  | None =>
      ret (new_Response PLACEHOLDER_SVG
             {| init_status := None; init_statusText := None;
                init_headers := [("Content-Type", "image/svg+xml");
                                 ("Cache-Control", "max-age=86400")] |})
  end.

Definition getOfflinePage : Task Response :=
  cache <- caches_open STATIC_CACHE ;;
  offlineResponse <- cache_match cache (url_of_path "/") ;;
  match offlineResponse with
  | Some r => ret r
  | None =>
      ret (new_Response OFFLINE_HTML
             {| init_status := None; init_statusText := None;
                init_headers := [("Content-Type", "text/html");
                                 ("Cache-Control", "no-cache")] |})
  end.

Definition handleOfflineFallback (request : Request) : Task Response :=
  let url := url request in
  if isImage (pathname url) then getPlaceholderImage
  else if isHTMLPage (pathname url) then getOfflinePage
  else ret (new_Response "Offline"
              {| init_status := Some 503;
                 init_statusText := Some "Service Unavailable";
                 init_headers := [] |}).

(** What it prints with [console.log] is not part of the outcome. *)
Definition limitCacheSize (cacheName : string) (maxSize : nat) : Task unit :=
  cache <- caches_open cacheName ;;
  keys <- cache_keys cache ;;
  if (maxSize <? length keys)%nat then
    let keysToDelete := take (length keys - maxSize) keys in
    _ <- Promise_all (cache_delete cache <$> keysToDelete) ;;
    ret tt
  else ret tt.

(** *** The four strategies *)

(** Each strategy is taken with the writes it leaves behind: the put of
    [handleStaticAsset] and [handleHTMLPage] is the last thing they do, the
    put of [handleImage] and [handleDynamic] is followed by the trimming
    and, when that throws, by the lookup of the catch block. *)

Definition handleStaticAsset (request : Request) : Task Response :=
  settle
    (cache <- caches_open STATIC_CACHE ;;
     cachedResponse <- cache_match cache (url request) ;;
     match cachedResponse with
     | Some r =>
         _ <- updateCacheInBackground request cache ;;
         ret r
     | None =>
         networkResponse <- fetch request ;;
         _ <- (if ok networkResponse
               then cache_put cache (url request) networkResponse
               else ret tt) ;;
         ret networkResponse
     end).

Definition handleImage (request : Request) : Task Response :=
  settle
    (cache <- caches_open IMAGE_CACHE ;;
     cachedResponse <- cache_match cache (url request) ;;
     match cachedResponse with
     | Some r => ret r
     | None =>
         try_catch
           (networkResponse <- fetchWithTimeout request NETWORK_TIMEOUT ;;
            _ <- (if ok networkResponse
                  then (_ <- cache_put cache (url request) networkResponse ;;
                        limitCacheSize IMAGE_CACHE MAX_IMAGE_CACHE_SIZE)
                  else ret tt) ;;
            ret networkResponse)
           (fun error => getPlaceholderImage)
     end).

Definition handleHTMLPage (request : Request) : Task Response :=
  settle
    (cache <- caches_open DYNAMIC_CACHE ;;
     try_catch
       (networkResponse <- fetchWithTimeout request NETWORK_TIMEOUT ;;
        _ <- (if ok networkResponse
              then cache_put cache (url request) networkResponse
              else ret tt) ;;
        ret networkResponse)
       (fun error =>
          cachedResponse <- cache_match cache (url request) ;;
          match cachedResponse with
          | Some r => ret r
          | None => getOfflinePage
          end)).

Definition handleDynamic (request : Request) : Task Response :=
  settle
    (cache <- caches_open DYNAMIC_CACHE ;;
     try_catch
       (networkResponse <- fetchWithTimeout request NETWORK_TIMEOUT ;;
        _ <- (if ok networkResponse
              then (_ <- cache_put cache (url request) networkResponse ;;
                    limitCacheSize DYNAMIC_CACHE MAX_DYNAMIC_CACHE_SIZE)
              else ret tt) ;;
        ret networkResponse)
       (fun error =>
          cachedResponse <- cache_match cache (url request) ;;
          match cachedResponse with
          | Some r => ret r
          | None =>
              ret (new_Response "Offline"
                     {| init_status := Some 503; init_statusText := None;
                        init_headers := [] |})
          end)).

(** *** Routing *)

Definition handleFetch (request : Request) : Task Response :=
  let url := url request in
  try_catch
    (if isStaticAsset (pathname url) then handleStaticAsset request
     else if isImage (pathname url) then handleImage request
     else if isHTMLPage (pathname url) then handleHTMLPage request
     else handleDynamic request)
    (fun error =>
       _ <- console_error "Service Worker: Fetch error" error ;;
       handleOfflineFallback request).

(** The fetch listener: requests that are not GET, or not of the worker's
    origin, are left to the browser. *)
Definition onFetch (request : Request) : option (Task Response) :=
  if negb (String.eqb (method request) "GET") then None
  else if negb (String.eqb (origin (url request)) (location_origin env)) then None
  else Some (handleFetch request).

(** *** Installation *)

(** The two promises the install listener passes to [Promise.all]. *)
Definition precacheStatic : Task unit :=
  cache <- caches_open STATIC_CACHE ;;
  cache_addAll cache STATIC_ASSETS.

Definition precacheImages : Task unit :=
  cache <- caches_open IMAGE_CACHE ;;
  cache_addAll cache (filter (fun url => url <> EmptyString) CRITICAL_IMAGES).

(** The promise the install listener hands to [waitUntil]. *)
Definition onInstall : Task unit :=
  try_catch
    (_ <- Promise_all [precacheStatic; precacheImages] ;;
     skipWaiting)
    (fun error => console_error "❌ Service Worker: Installation failed" error).

End Worker.

(** ** The classification, in the words of the specification *)

Inductive Strategy := StaticAsset | Image | HTMLPage | Dynamic.

Definition strategy_handler (env : Env) (c : Strategy) : Request -> Task Response :=
  match c with
  | StaticAsset => handleStaticAsset env
  | Image => handleImage env
  | HTMLPage => handleHTMLPage env
  | Dynamic => handleDynamic env
  end.

Definition STYLE_SCRIPT_FONT_EXTENSIONS : list string :=
  ["css"; "js"; "woff"; "woff2"; "ttf"; "eot"].

Definition IMAGE_EXTENSIONS : list string :=
  ["jpg"; "jpeg"; "png"; "webp"; "svg"; "gif"].

(** The path ends in a dot followed by one of the extensions. *)
Definition ends_in_extension (exts : list string) (path : string) : Prop :=
  exists stem ext, ext ∈ exts /\ path = stem +:+ "." +:+ ext.

(** There is no dot anywhere in the path. *)
Definition has_no_extension (path : string) : Prop :=
  forall before after, path <> before +:+ "." +:+ after.

Definition html_shaped (path : string) : Prop :=
  path = "/" \/ ends_in_extension ["html"] path \/ has_no_extension path.

(** First match wins, in the order static asset, image, HTML page,
    everything else. *)
Inductive classified : string -> Strategy -> Prop :=
| classified_static path :
    ends_in_extension STYLE_SCRIPT_FONT_EXTENSIONS path ->
    classified path StaticAsset
| classified_image path :
    ~ ends_in_extension STYLE_SCRIPT_FONT_EXTENSIONS path ->
    ends_in_extension IMAGE_EXTENSIONS path ->
    classified path Image
| classified_html path :
    ~ ends_in_extension STYLE_SCRIPT_FONT_EXTENSIONS path ->
    ~ ends_in_extension IMAGE_EXTENSIONS path ->
    html_shaped path ->
    classified path HTMLPage
| classified_dynamic path :
    ~ ends_in_extension STYLE_SCRIPT_FONT_EXTENSIONS path ->
    ~ ends_in_extension IMAGE_EXTENSIONS path ->
    ~ html_shaped path ->
    classified path Dynamic.

(** The branch [handleFetch] takes. *)
Definition route (p : string) : Strategy :=
  if isStaticAsset p then StaticAsset
  else if isImage p then Image
  else if isHTMLPage p then HTMLPage
  else Dynamic.


(** ** Observations on outcomes *)

Definition skipWaiting_called (evs : list Event) : bool :=
  existsb (fun ev => match ev with EvSkipWaiting => true | _ => false end) evs.

(** The network answers the path with an [ok] response. *)
Definition fetched_ok (env : Env) (path : string) : bool :=
  match settled (network env (GET (url_of_path env path))) with
  | Resolves r => ok r
  | Rejects => false
  end.

(** What an install-time bulk write needs: the partition opens, [addAll]
    is not failed by the host, and every path is answered [ok]. *)
Definition bulk_write_succeeds (env : Env) (name : string) (paths : list string) : bool :=
  negb (cache_fault env OpOpen name)
  && negb (cache_fault env OpAddAll name)
  && forallb (fetched_ok env) paths.

(** What the install handler logs when a bulk write fails. *)
Definition INSTALL_FAILED : string := "❌ Service Worker: Installation failed".

(** The page [getOfflinePage] makes up when it finds no cached root. *)
Definition SYNTHESIZED_OFFLINE_PAGE : Response :=
  new_Response OFFLINE_HTML
    {| init_status := None; init_statusText := None;
       init_headers := [("Content-Type", "text/html");
                        ("Cache-Control", "no-cache")] |}.

(** The image [getPlaceholderImage] makes up when it finds no cached
    placeholder. *)
Definition SYNTHESIZED_PLACEHOLDER : Response :=
  new_Response PLACEHOLDER_SVG
    {| init_status := None; init_statusText := None;
       init_headers := [("Content-Type", "image/svg+xml");
                        ("Cache-Control", "max-age=86400")] |}.

(** The answer of last resort. *)
Definition SERVICE_UNAVAILABLE : Response :=
  new_Response "Offline"
    {| init_status := Some 503;
       init_statusText := Some "Service Unavailable";
       init_headers := [] |}.

(** ** Writes into a bounded partition *)

(** The write of [handleImage] and [handleDynamic] in one request: the
    put is started, the trimming is awaited, and the put has landed when
    the request is done. *)
Definition bounded_write (env : Env) (cacheName : string) (maxSize : nat)
    (key : URL) (response : Response) : Task unit :=
  settle env
    (_ <- cache_put env cacheName key response ;;
     limitCacheSize env cacheName maxSize).

(** The number of entries such a write leaves at most: the trimming
    lists the keys without the entry of the put, unless the host lands the
    put first. *)
Definition held_to (env : Env) (maxSize : nat) : nat :=
  if put_lands_first env then maxSize else S maxSize.

(** A lookup, as the strategies do it. *)
Definition cache_read (env : Env) (cacheName : string) (key : URL)
    : Task (option Response) :=
  cache <- caches_open env cacheName ;;
  cache_match env cache key.

Inductive CacheAccess :=
| Write (key : URL) (response : Response)
| Read (key : URL).

(** A history of writes and lookups on one bounded partition, each write
    in a request of its own. *)
Fixpoint run_accesses (env : Env) (cacheName : string) (maxSize : nat)
    (accesses : list CacheAccess) : Task unit :=
  match accesses with
  | [] => ret tt
  | Write key response :: accesses' =>
      _ <- bounded_write env cacheName maxSize key response ;;
      run_accesses env cacheName maxSize accesses'
  | Read key :: accesses' =>
      _ <- cache_read env cacheName key ;;
      run_accesses env cacheName maxSize accesses'
  end.

(** The keys written, in the order of the writes. *)
Definition written_keys (accesses : list CacheAccess) : list URL :=
  omap (fun a => match a with Write key _ => Some key | Read _ => None end) accesses.

(** The keys deleted from a partition, in the order of the deletions. *)
Definition deleted_keys (cacheName : string) (evs : list Event) : list URL :=
  omap (fun ev =>
          match ev with
          | EvCacheDelete name key =>
              if decide (name = cacheName) then Some key else None
          | _ => None
          end) evs.

(** No operation on the partition fails. *)
Definition usable (env : Env) (name : string) : Prop :=
  forall op, cache_fault env op name = false.


(** ** Sample hosts and requests *)

Definition SAMPLE_ORIGIN : string := "https://portfolio.example".

(** The network is down; the caches work. *)
Definition offline_env : Env :=
  {| location_origin := SAMPLE_ORIGIN;
     network := fun _ => {| settled := Rejects; latency := 10 |};
     cache_fault := fun _ _ => false;
     put_lands_first := false |}.

Definition sample_request (path : string) : Request :=
  GET (url_of_path offline_env path).

(** The network answers every request with 404, after 120 ms. *)
Definition NOT_FOUND : Response :=
  {| status := 404; statusText := "Not Found"; headers := []; body := "not found" |}.

Definition not_found_env : Env :=
  {| location_origin := SAMPLE_ORIGIN;
     network := fun _ => {| settled := Resolves NOT_FOUND; latency := 120 |};
     cache_fault := fun _ _ => false;
     put_lands_first := false |}.

(** The site is up: every path is answered with status 200 after 80 ms;
    the caches work. *)
Definition served (request : Request) : Response :=
  {| status := 200; statusText := "OK"; headers := [];
     body := "content of " +:+ pathname (url request) |}.

Definition online_env : Env :=
  {| location_origin := SAMPLE_ORIGIN;
     network := fun request => {| settled := Resolves (served request); latency := 80 |};
     cache_fault := fun _ _ => false;
     put_lands_first := false |}.

(** The same site on a host where an un-awaited put lands before the
    next awaited call is answered; on the other sample hosts it lands once
    the handler has returned. *)
Definition put_first_env : Env :=
  {| location_origin := SAMPLE_ORIGIN;
     network := fun request => {| settled := Resolves (served request); latency := 80 |};
     cache_fault := fun _ _ => false;
     put_lands_first := true |}.

(** The cache storage after an install with the site up. *)
Definition installed : CacheStorage := storage (onInstall online_env ∅).



(** The network is down and every cache operation fails. *)
Definition broken_cache_env : Env :=
  {| location_origin := SAMPLE_ORIGIN;
     network := fun _ => {| settled := Rejects; latency := 10 |};
     cache_fault := fun _ _ => true;
     put_lands_first := false |}.

(** Fifty-one photographs, and the history that writes each of them once,
    with a lookup of the first one after every write. *)
Definition photo (n : nat) : Request :=
  sample_request ("/assets/images/photo-" +:+ pretty n +:+ ".jpg").

Definition photos : list Request := photo <$> seq 1 51.

Definition photo_history : list CacheAccess :=
  photos ≫= fun request =>
    [Write (url request) (served request); Read (url (photo 1))].

(** A generic resource. *)
Definition api_item (n : nat) : Request :=
  sample_request ("/api/item-" +:+ pretty n +:+ ".json").

(** The cache storage after the thirty resources were requested in turn,
    starting from nothing. *)
Definition dynamic_full : CacheStorage :=
  foldl (fun s request => storage (handleFetch online_env request s)) ∅
        (api_item <$> seq 1 30).

(** ** What a handler leaves alone *)

(** A relation on cache storages that looks at one partition only. *)
Definition partition_rel (name : string) (R : relation Cache) : relation CacheStorage :=
  fun s s' => R (partition s name) (partition s' name).

(** Every run of the task relates the storage before to the storage
    after, and so does the landing of each write the task has started. *)
Definition respects {A} (env : Env) (P : relation CacheStorage) (t : Task A) : Prop :=
  forall s,
    P s (storage (t s))
    /\ Forall (fun ev => forall s', P s' (land env s' ev)) (events (t s)).

(** The partition a strategy reads and writes. *)
Definition strategy_partition (c : Strategy) : string :=
  match c with
  | StaticAsset => STATIC_CACHE
  | Image => IMAGE_CACHE
  | HTMLPage | Dynamic => DYNAMIC_CACHE
  end.

(** The entry of [key] is as it was, or [key] is [own] and has an entry. *)
Definition entry_kept_or_own (own key : URL) : relation Cache :=
  fun c c' =>
    cache_find key c' = cache_find key c
    \/ (key = own /\ is_Some (cache_find key c')).

(** The requests of a session handled one after the other, each with the
    host as it is by then. *)
Definition serve (history : list (Env * Request)) (s : CacheStorage) : CacheStorage :=
  foldl (fun s visit => storage (handleFetch visit.1 visit.2 s)) s history.

(** The entry of [key] is as it was. *)
Definition entry_kept (key : URL) : relation Cache :=
  fun c c' => cache_find key c' = cache_find key c.

(** A session: the page is opened, an image and a stylesheet are loaded,
    and the network goes away before the next page is asked for. *)
Definition sample_session : list (Env * Request) :=
  [ (online_env, sample_request "/");
    (online_env, photo 1);
    (online_env, sample_request "/styles/main.css");
    (offline_env, sample_request "/about") ].

(** The network answers every request with 500, after 200 ms. *)
Definition SERVER_ERROR : Response :=
  {| status := 500; statusText := "Internal Server Error"; headers := [];
     body := "server error" |}.

Definition server_error_env : Env :=
  {| location_origin := SAMPLE_ORIGIN;
     network := fun _ => {| settled := Resolves SERVER_ERROR; latency := 200 |};
     cache_fault := fun _ _ => false;
     put_lands_first := false |}.

(** The site is up, and the host fails every listing of the keys of a
    cache. *)
Definition keys_broken_env : Env :=
  {| location_origin := SAMPLE_ORIGIN;
     network := fun request => {| settled := Resolves (served request); latency := 80 |};
     cache_fault := fun op _ => match op with OpKeys => true | _ => false end;
     put_lands_first := false |}.

(** The cache storage after a visit of the about page and a request of a
    generic resource, with the site up. *)
Definition visited : CacheStorage :=
  serve [(online_env, sample_request "/about"); (online_env, api_item 1)] ∅.


(** After the install, the path is in the partition, with the [ok]
    response the network gave for it. *)
Definition precached (env : Env) (s : CacheStorage) (name path : string) : Prop :=
  exists r,
    settled (network env (GET (url_of_path env path))) = Resolves r
    /\ ok r = true
    /\ cache_find (url_of_path env path) (partition (storage (onInstall env s)) name)
       = Some r.

(** ** Activation *)

Definition CACHE_NAME : string := "portfolio-v1.1.0".

(** The host at activation time: whether listing the caches fails, and
    which caches cannot be deleted. *)
Record ActivateHost := {
  keys_fails : bool;
  delete_fails : string -> bool
}.

Inductive ActivateCall :=
| CallCachesKeys
| CallCachesDelete (cacheName : string)
| CallClientsClaim.

Inductive ActivateError :=
| KeysFailed
| DeleteFailed (cacheName : string).

(** What the promise handed to [waitUntil] settles to ([None]: it
    fulfils), the cache storage then, and the host calls made. *)
Record Activation := {
  activation_error : option ActivateError;
  activation_storage : CacheStorage;
  activation_calls : list ActivateCall
}.

(** The test of the activate listener: none of the three current names. *)
Definition is_old_cache (cacheName : string) : bool :=
  negb (String.eqb cacheName STATIC_CACHE)
  && negb (String.eqb cacheName DYNAMIC_CACHE)
  && negb (String.eqb cacheName IMAGE_CACHE).

(** [caches.keys()]; the order of the names is the host's. *)
Definition caches_keys (s : CacheStorage) : list string := (map_to_list s).*1.

(** [Promise.all(cacheNames.map(...))]: a delete is started for every old
    name, whatever becomes of the others; the first rejection is the one
    reported. *)
Fixpoint delete_old_caches (host : ActivateHost) (cacheNames : list string)
    (s : CacheStorage) : Activation :=
  match cacheNames with
  | [] => {| activation_error := None; activation_storage := s; activation_calls := [] |}
  | cacheName :: cacheNames' =>
      if is_old_cache cacheName then
        let rest :=
          delete_old_caches host cacheNames'
            (if delete_fails host cacheName then s else delete cacheName s) in
        {| activation_error :=
             if delete_fails host cacheName then Some (DeleteFailed cacheName)
             else activation_error rest;
           activation_storage := activation_storage rest;
           activation_calls := CallCachesDelete cacheName :: activation_calls rest |}
      else delete_old_caches host cacheNames' s
  end.

(** The promise the activate listener hands to [waitUntil]: list the
    caches, delete the old ones, then claim the clients. Nothing is caught. *)
Definition onActivate (host : ActivateHost) (s : CacheStorage) : Activation :=
  if keys_fails host then
    {| activation_error := Some KeysFailed; activation_storage := s;
       activation_calls := [CallCachesKeys] |}
  else
    let deleted := delete_old_caches host (caches_keys s) s in
    match activation_error deleted with
    | None =>
        {| activation_error := None;
           activation_storage := activation_storage deleted;
           activation_calls :=
             CallCachesKeys :: activation_calls deleted ++ [CallClientsClaim] |}
    | Some e =>
        {| activation_error := Some e;
           activation_storage := activation_storage deleted;
           activation_calls := CallCachesKeys :: activation_calls deleted |}
    end.

Definition clients_claimed (calls : list ActivateCall) : bool :=
  existsb (fun call => match call with CallClientsClaim => true | _ => false end) calls.

(** A host on which nothing fails, and one that cannot delete the cache
    of the previous version. *)
Definition sound_host : ActivateHost :=
  {| keys_fails := false; delete_fails := fun _ => false |}.

Definition stuck_host : ActivateHost :=
  {| keys_fails := false;
     delete_fails := fun cacheName => String.eqb cacheName "portfolio-dynamic-v1.0.0" |}.

(** The caches of the previous version beside those of this one. *)
Definition upgraded : CacheStorage :=
  <["portfolio-dynamic-v1.0.0" := [(url (sample_request "/old"), served (sample_request "/old"))]]>
    (<["portfolio-static-v1.0.0" := []]> (<[CACHE_NAME := []]> visited)).

(** * Properties *)

(** ** Strings *)

Section StringFacts.

Lemma append_cons a s t : String a s +:+ t = String a (s +:+ t).
Proof. reflexivity. Qed.

Lemma append_nil_l t : EmptyString +:+ t = t.
Proof. reflexivity. Qed.

Lemma endsWith_refl s : endsWith s s = true.
Proof. destruct s; cbn [endsWith]; rewrite String.eqb_refl; reflexivity. Qed.

Lemma endsWith_spec s suf :
  endsWith s suf = true <-> exists pre, s = pre +:+ suf.
Proof.
  induction s as [|a s IH]; cbn [endsWith].
  - rewrite orb_false_r, String.eqb_eq. split.
    + intros <-. exists EmptyString. reflexivity.
    + intros [[|b pre] H]; [exact H | discriminate H].
  - rewrite orb_true_iff, String.eqb_eq, IH. split.
    + intros [<- | [pre ->]].
      * exists EmptyString. reflexivity.
      * exists (String a pre). reflexivity.
    + intros [[|b pre] H].
      * left. exact H.
      * right. rewrite append_cons in H. injection H as _ ->. eauto.
Qed.

Lemma prefix_spec sub s :
  String.prefix sub s = true <-> exists post, s = sub +:+ post.
Proof.
  revert s. induction sub as [|a sub IH]; intros s.
  - split; [intros _; exists s; reflexivity | intros _; destruct s; reflexivity].
  - destruct s as [|b s]; cbn [String.prefix].
    + split; [discriminate | intros [post H]; discriminate H].
    + destruct (Ascii.ascii_dec a b) as [->|Hne].
      * rewrite IH. split; intros [post H]; exists post.
        -- rewrite append_cons, H. reflexivity.
        -- rewrite append_cons in H. injection H as ->. reflexivity.
      * split; [discriminate |].
        intros [post H]. rewrite append_cons in H. congruence.
Qed.

Lemma includes_spec s sub :
  includes s sub = true <-> exists pre post, s = pre +:+ sub +:+ post.
Proof.
  induction s as [|a s IH]; cbn [includes].
  - rewrite orb_false_r, prefix_spec. split.
    + intros [post H]. exists EmptyString, post. exact H.
    + intros [[|b pre] [post H]]; [eauto | discriminate H].
  - rewrite orb_true_iff, prefix_spec, IH. split.
    + intros [[post H] | (pre & post & ->)].
      * exists EmptyString, post. exact H.
      * exists (String a pre), post. reflexivity.
    + intros [[|b pre] [post H]].
      * left. eauto.
      * right. rewrite append_cons in H. injection H as _ ->. eauto.
Qed.

(** Two suffixes of one string are comparable. *)
Lemma endsWith_both s a b :
  endsWith s a = true -> endsWith s b = true ->
  endsWith a b = true \/ endsWith b a = true.
Proof.
  induction s as [|c s IH]; cbn [endsWith]; rewrite ?orb_false_r, ?orb_true_iff, ?String.eqb_eq.
  - intros <- <-. left. reflexivity.
  - intros [<- | Ha] [<- | Hb].
    + left. apply endsWith_refl.
    + left. cbn [endsWith]. rewrite Hb. apply orb_true_r.
    + right. cbn [endsWith]. rewrite Ha. apply orb_true_r.
    + auto.
Qed.

(** What a suffix contains, the string contains. *)
Lemma includes_of_suffix s suf x :
  endsWith s suf = true -> includes suf x = true -> includes s x = true.
Proof.
  induction s as [|c s IH]; cbn [endsWith includes];
    rewrite ?orb_false_r, ?orb_true_iff, ?String.eqb_eq.
  - intros <-. cbn [includes]. rewrite orb_false_r. auto.
  - intros [<- | Hs] Hx.
    + cbn [includes] in Hx. apply orb_true_iff in Hx. exact Hx.
    + right. auto.
Qed.

End StringFacts.

(** ** The classifier *)

Section ClassifierFacts.

Lemma existsb_endsWith p l :
  existsb (endsWith p) l = true <-> exists suf, suf ∈ l /\ endsWith p suf = true.
Proof. rewrite existsb_exists. setoid_rewrite list_elem_of_In. reflexivity. Qed.

Lemma static_not_image p : isStaticAsset p = true -> isImage p = false.
Proof.
  intros Hs. destruct (isImage p) eqn:Hi; [exfalso | reflexivity].
  apply existsb_endsWith in Hs as (a & Ha & Hpa).
  apply existsb_endsWith in Hi as (b & Hb & Hpb).
  destruct (endsWith_both _ _ _ Hpa Hpb) as [H | H];
    apply list_elem_of_In in Ha, Hb; simpl in Ha, Hb;
    intuition subst; vm_compute in H; discriminate H.
Qed.

Lemma suffixed_not_html p l :
  Forall (fun suf => includes suf "." = true /\ endsWith ".html" suf = false
                     /\ endsWith suf ".html" = false /\ endsWith "/" suf = false) l ->
  existsb (endsWith p) l = true -> isHTMLPage p = false.
Proof.
  intros Hl Hp. apply existsb_endsWith in Hp as (suf & Hin & Hsuf).
  rewrite Forall_forall in Hl. destruct (Hl _ Hin) as (Hdot & H1 & H2 & H3).
  unfold isHTMLPage.
  rewrite (includes_of_suffix _ _ _ Hsuf Hdot). simpl. rewrite orb_false_r.
  apply orb_false_iff. split.
  - apply not_true_is_false. intros ->%String.eqb_eq. congruence.
  - apply not_true_is_false. intros Hh.
    destruct (endsWith_both _ _ _ Hh Hsuf); congruence.
Qed.

Lemma static_not_html p : isStaticAsset p = true -> isHTMLPage p = false.
Proof.
  apply suffixed_not_html. unfold STATIC_SUFFIXES.
  repeat constructor; reflexivity.
Qed.

Lemma image_not_html p : isImage p = true -> isHTMLPage p = false.
Proof.
  apply suffixed_not_html. unfold IMAGE_SUFFIXES.
  repeat constructor; reflexivity.
Qed.

End ClassifierFacts.

Section ClassifierRefinement.

Lemma dotted_suffixes_spec exts p :
  existsb (endsWith p) (String "."%char <$> exts) = true
  <-> ends_in_extension exts p.
Proof.
  rewrite existsb_endsWith. unfold ends_in_extension. split.
  - intros (suf & Hin & Hends).
    apply list_elem_of_fmap in Hin as (ext & -> & Hext).
    apply endsWith_spec in Hends as [stem ->]. eauto.
  - intros (stem & ext & Hext & ->). exists (String "."%char ext). split.
    + apply list_elem_of_fmap. eauto.
    + apply endsWith_spec. exists stem. reflexivity.
Qed.

Lemma isStaticAsset_spec p :
  isStaticAsset p = true <-> ends_in_extension STYLE_SCRIPT_FONT_EXTENSIONS p.
Proof. exact (dotted_suffixes_spec STYLE_SCRIPT_FONT_EXTENSIONS p). Qed.

Lemma isImage_spec p :
  isImage p = true <-> ends_in_extension IMAGE_EXTENSIONS p.
Proof. exact (dotted_suffixes_spec IMAGE_EXTENSIONS p). Qed.

Lemma no_dot_spec p : includes p "." = false <-> has_no_extension p.
Proof.
  unfold has_no_extension. split.
  - intros H before after ->.
    assert (includes (before +:+ "." +:+ after) "." = true) as Hin
      by (apply includes_spec; eauto).
    congruence.
  - intros H. apply not_true_is_false. intros (a & b & ->)%includes_spec.
    exact (H a b eq_refl).
Qed.

Lemma isHTMLPage_spec p : isHTMLPage p = true <-> html_shaped p.
Proof.
  unfold isHTMLPage, html_shaped.
  rewrite !orb_true_iff, String.eqb_eq, negb_true_iff, no_dot_spec.
  assert (endsWith p ".html" = true <-> ends_in_extension ["html"] p) as ->.
  { rewrite <- (dotted_suffixes_spec ["html"] p). simpl.
    rewrite orb_false_r. reflexivity. }
  tauto.
Qed.


Lemma route_classified p : classified p (route p).
Proof.
  unfold route.
  destruct (isStaticAsset p) eqn:Hs.
  { constructor. apply isStaticAsset_spec, Hs. }
  assert (~ ends_in_extension STYLE_SCRIPT_FONT_EXTENSIONS p) as Hs'
    by (rewrite <- isStaticAsset_spec; congruence).
  destruct (isImage p) eqn:Hi.
  { constructor; [exact Hs' | apply isImage_spec, Hi]. }
  assert (~ ends_in_extension IMAGE_EXTENSIONS p) as Hi'
    by (rewrite <- isImage_spec; congruence).
  destruct (isHTMLPage p) eqn:Hh.
  { constructor; [exact Hs' | exact Hi' | apply isHTMLPage_spec, Hh]. }
  constructor; [exact Hs' | exact Hi' |].
  rewrite <- isHTMLPage_spec. congruence.
Qed.

Lemma classified_functional p c c' :
  classified p c -> classified p c' -> c = c'.
Proof. intros H H'. destruct H; inversion H'; subst; tauto. Qed.

Lemma handleFetch_route env request :
  handleFetch env request =
  try_catch
    (strategy_handler env (route (pathname (url request))) request)
    (fun error =>
       _ <- console_error "Service Worker: Fetch error" error ;;
       handleOfflineFallback env request).
Proof.
  unfold handleFetch, route.
  destruct (isStaticAsset _); [reflexivity |].
  destruct (isImage _); [reflexivity |].
  destruct (isHTMLPage _); reflexivity.
Qed.

End ClassifierRefinement.

(** C7. Every path falls into exactly one of the four classes, taken in
    the order static asset (a stylesheet, script or font extension), image
    (an image extension), HTML page (the root, an HTML extension, or no dot
    at all), everything else; [handleFetch] runs the strategy of that class
    inside its try block. *)
Theorem C7_classification_first_match env request :
  exists c,
    classified (pathname (url request)) c
    /\ (forall c', classified (pathname (url request)) c' -> c' = c)
    /\ handleFetch env request =
       try_catch
         (strategy_handler env c request)
         (fun error =>
            _ <- console_error "Service Worker: Fetch error" error ;;
            handleOfflineFallback env request).
Proof.
  exists (route (pathname (url request))). split; [apply route_classified |].
  split; [| apply handleFetch_route].
  intros c' Hc'. eapply classified_functional; [exact Hc' | apply route_classified].
Qed.

(** ** The cache storage *)

Section StorageFacts.

Lemma partition_set_eq name c s : partition (set_partition name c s) name = c.
Proof. unfold partition, set_partition. rewrite lookup_insert_eq. reflexivity. Qed.

Lemma partition_set_ne name name' c s :
  name <> name' -> partition (set_partition name c s) name' = partition s name'.
Proof.
  intros Hne. unfold partition, set_partition.
  rewrite lookup_insert_ne by exact Hne. reflexivity.
Qed.

(** Opening a partition changes the content of none. *)
Lemma partition_opened name name' s :
  partition (set_partition name (partition s name) s) name' = partition s name'.
Proof.
  destruct (decide (name = name')) as [<- | Hne].
  - apply partition_set_eq.
  - apply partition_set_ne, Hne.
Qed.

End StorageFacts.

(** ** Writes that land later *)

Section LandFacts.

Variable env : Env.

Lemma land_first evs s : put_lands_first env = true -> foldl (land env) s evs = s.
Proof.
  intros Hfirst. induction evs as [|ev evs IH]; [reflexivity |].
  cbn [foldl]. destruct ev; cbn [land]; rewrite ?Hfirst; exact IH.
Qed.

Lemma land_deletes name keys s : foldl (land env) s (EvCacheDelete name <$> keys) = s.
Proof. induction keys as [|key keys IH]; [reflexivity | exact IH]. Qed.

End LandFacts.

#[global] Arguments partition : simpl never.
#[global] Arguments set_partition : simpl never.

(** ** The network *)

(** The network attempt of a strategy fails: the fetch rejects, or it has
    not settled when the timer fires. *)
Definition network_fails (env : Env) (request : Request) (timeout : nat) : Prop :=
  settled (network env request) = Rejects
  \/ timeout <= latency (network env request).

Section NetworkFacts.

Variable env : Env.

Lemma fetchWithTimeout_fails request timeout s :
  network_fails env request timeout ->
  exists e,
    fetchWithTimeout env request timeout s =
    {| result := Rejected e; storage := s;
       events := [EvFetch request; EvSetTimeout timeout] |}.
Proof.
  unfold network_fails, fetchWithTimeout, fetch.
  cbn [app]. intros [Hrej | Hslow].
  - rewrite Hrej. destruct (Nat.ltb _ _); eauto.
  - apply Nat.ltb_ge in Hslow. rewrite Hslow. eauto.
Qed.

Lemma fetchWithTimeout_resolves request timeout r s :
  settled (network env request) = Resolves r ->
  latency (network env request) < timeout ->
  fetchWithTimeout env request timeout s =
  {| result := Fulfilled r; storage := s;
     events := [EvFetch request; EvSetTimeout timeout] |}.
Proof.
  unfold fetchWithTimeout, fetch. cbn [app]. intros -> Hfast.
  apply Nat.ltb_lt in Hfast. rewrite Hfast. reflexivity.
Qed.

End NetworkFacts.

(** ** Running a handler *)

Ltac unfold_host :=
  unfold caches_open, cache_match, cache_keys, cache_delete, cache_call,
         cache_put, console_error, skipWaiting.

Ltac task_simpl :=
  cbv [bind try_catch preceded_by ret throw settle];
  cbn [result storage events fst snd app foldl land].

(** ** Generic requests *)

(** C8. A generic request (neither static asset, image nor HTML page)
    whose network attempt fails or times out and that has no entry in the
    dynamic partition is answered with status 503 and body Offline. *)
Theorem C8_generic_offline_503 env request s :
  isStaticAsset (pathname (url request)) = false ->
  isImage (pathname (url request)) = false ->
  isHTMLPage (pathname (url request)) = false ->
  network_fails env request NETWORK_TIMEOUT ->
  cache_find (url request) (partition s DYNAMIC_CACHE) = None ->
  exists r,
    result (handleFetch env request s) = Fulfilled r
    /\ status r = 503 /\ body r = "Offline".
Proof.
  intros Hs Hi Hh Hnet Hmiss.
  unfold handleFetch. rewrite Hs, Hi, Hh.
  unfold handleDynamic, handleOfflineFallback. rewrite Hi, Hh.
  unfold_host.
  destruct (cache_fault env OpOpen DYNAMIC_CACHE); task_simpl.
  - eauto.
  - destruct (fetchWithTimeout_fails env request NETWORK_TIMEOUT
                (set_partition DYNAMIC_CACHE (partition s DYNAMIC_CACHE) s) Hnet)
      as [e ->].
    task_simpl.
    destruct (cache_fault env OpMatch DYNAMIC_CACHE); task_simpl.
    + eauto.
    + rewrite partition_opened, Hmiss. task_simpl. eauto.
Qed.

Lemma C8_witness :
  exists r,
    result (handleFetch offline_env (sample_request "/api/projects.json") ∅) = Fulfilled r
    /\ status r = 503 /\ body r = "Offline".
Proof.
  apply C8_generic_offline_503;
    [reflexivity | reflexivity | reflexivity | left; reflexivity | reflexivity].
Defined.

(** ** Images *)

(** C10. An image request that misses the images partition and whose
    fetch resolves before the timer with a status that is not [ok] gets
    that very response: nothing is written, no trimming runs (the host
    calls are the open, the lookup, the fetch and the timer, and every
    partition keeps its content), and no placeholder is made. *)
Theorem C10_image_non_ok_passthrough env request s r :
  isStaticAsset (pathname (url request)) = false ->
  isImage (pathname (url request)) = true ->
  readable env IMAGE_CACHE ->
  cache_find (url request) (partition s IMAGE_CACHE) = None ->
  settled (network env request) = Resolves r ->
  latency (network env request) < NETWORK_TIMEOUT ->
  ok r = false ->
  result (handleFetch env request s) = Fulfilled r
  /\ events (handleFetch env request s) =
     [EvCacheOpen IMAGE_CACHE; EvCacheMatch IMAGE_CACHE (url request);
      EvFetch request; EvSetTimeout NETWORK_TIMEOUT]
  /\ forall name,
       partition (storage (handleFetch env request s)) name = partition s name.
Proof.
  intros Hs Hi [Hopen Hmatch] Hmiss Hnet Hfast Hok.
  unfold handleFetch. rewrite Hs, Hi. unfold handleImage. unfold_host.
  rewrite Hopen. task_simpl. rewrite Hmatch. task_simpl.
  rewrite partition_opened, Hmiss. task_simpl.
  rewrite (fetchWithTimeout_resolves env request NETWORK_TIMEOUT r _ Hnet Hfast).
  task_simpl. rewrite Hok. task_simpl.
  repeat split. intros name. apply partition_opened.
Qed.

Lemma C10_witness :
  result (handleFetch not_found_env (sample_request "/assets/images/missing.png") ∅)
  = Fulfilled NOT_FOUND
  /\ events (handleFetch not_found_env (sample_request "/assets/images/missing.png") ∅) =
     [EvCacheOpen IMAGE_CACHE;
      EvCacheMatch IMAGE_CACHE (url (sample_request "/assets/images/missing.png"));
      EvFetch (sample_request "/assets/images/missing.png");
      EvSetTimeout NETWORK_TIMEOUT]
  /\ forall name,
       partition (storage (handleFetch not_found_env
                             (sample_request "/assets/images/missing.png") ∅)) name
       = partition ∅ name.
Proof.
  apply C10_image_non_ok_passthrough;
    [reflexivity | reflexivity | split; reflexivity | reflexivity | reflexivity
    | unfold NETWORK_TIMEOUT; simpl; lia | reflexivity].
Defined.

(** ** Cache partitions *)

Section CacheFacts.

Lemma cache_find_app key c c' :
  cache_find key (c ++ c') =
  match cache_find key c with Some r => Some r | None => cache_find key c' end.
Proof.
  induction c as [|[k r] c IH]; [reflexivity |].
  cbn [app cache_find]. destruct (decide (k = key)); [reflexivity | exact IH].
Qed.

Lemma cache_find_remove_eq key c : cache_find key (cache_remove key c) = None.
Proof.
  unfold cache_remove. induction c as [|[k r] c IH]; [reflexivity |].
  rewrite filter_cons. cbn [fst]. destruct (decide (k <> key)) as [Hne | Heq].
  - cbn [cache_find]. destruct (decide (k = key)); [contradiction | exact IH].
  - exact IH.
Qed.

Lemma cache_find_remove_ne key key' c :
  key <> key' -> cache_find key (cache_remove key' c) = cache_find key c.
Proof.
  intros Hne. unfold cache_remove. induction c as [|[k r] c IH]; [reflexivity |].
  rewrite filter_cons. cbn [fst cache_find].
  destruct (decide (k <> key')) as [Hk | Hk].
  - cbn [cache_find]. destruct (decide (k = key)); [reflexivity | exact IH].
  - destruct (decide (k = key)) as [-> | _]; [| exact IH].
    exfalso. apply Hk. exact Hne.
Qed.

Lemma cache_find_store_eq key r c : cache_find key (cache_store key r c) = Some r.
Proof.
  unfold cache_store. rewrite cache_find_app, cache_find_remove_eq.
  cbn [cache_find]. rewrite decide_True by reflexivity. reflexivity.
Qed.

Lemma cache_find_store_ne key key' r c :
  key <> key' -> cache_find key (cache_store key' r c) = cache_find key c.
Proof.
  intros Hne. unfold cache_store.
  rewrite cache_find_app, cache_find_remove_ne by exact Hne.
  cbn [cache_find]. rewrite decide_False by congruence.
  destruct (cache_find key c); reflexivity.
Qed.

(** Entries written in one go: a key that is written once, first, keeps
    its response. *)
Lemma cache_find_stored_first key r entries c :
  key ∉ entries.*1 ->
  cache_find key (foldl (fun c e => cache_store e.1 e.2 c) c ((key, r) :: entries))
  = Some r.
Proof.
  cbn [foldl fst snd]. generalize (cache_find_store_eq key r c).
  generalize (cache_store key r c). clear c.
  induction entries as [|[k r'] entries IH]; intros c Hc Hnotin; [exact Hc |].
  cbn [foldl fst snd]. rewrite fmap_cons, not_elem_of_cons in Hnotin.
  destruct Hnotin as [Hne Hnotin]. cbn [fst] in Hne.
  apply IH; [| exact Hnotin]. rewrite cache_find_store_ne by exact Hne. exact Hc.
Qed.

End CacheFacts.

(** ** Installation *)

Section InstallFacts.

Variable env : Env.

Lemma skipWaiting_called_app evs evs' :
  skipWaiting_called (evs ++ evs') = skipWaiting_called evs || skipWaiting_called evs'.
Proof. apply existsb_app. Qed.

Lemma skipWaiting_called_fetches requests :
  skipWaiting_called (EvFetch <$> requests) = false.
Proof. induction requests as [|q requests IH]; [reflexivity | exact IH]. Qed.

(** [addAll] gets all its responses exactly when every path is answered
    [ok]; the entries are then the paths, in order, each with the answer of
    the network. *)
Lemma fetch_all_ok_spec paths :
  if forallb (fetched_ok env) paths
  then exists entries,
      fetch_all_ok env (url_of_path env <$> paths) = Fulfilled entries
      /\ entries.*1 = url_of_path env <$> paths
      /\ Forall (fun e => settled (network env (GET e.1)) = Resolves e.2) entries
  else exists e, fetch_all_ok env (url_of_path env <$> paths) = Rejected e.
Proof.
  induction paths as [|path paths IH]; cbn [forallb fmap list_fmap fetch_all_ok].
  - exists []. repeat split. constructor.
  - unfold fetched_ok at 1.
    destruct (settled (network env (GET (url_of_path env path)))) as [r |] eqn:Hnet;
      cbn [andb]; [| eauto].
    destruct (ok r); cbn [andb]; [| eauto].
    destruct (forallb (fetched_ok env) paths).
    + destruct IH as (entries & -> & Hkeys & Hall).
      exists ((url_of_path env path, r) :: entries). split; [reflexivity |].
      split; [cbn; rewrite Hkeys; reflexivity |].
      constructor; [exact Hnet | exact Hall].
    + destruct IH as [e ->]. eauto.
Qed.

(** An install-time bulk write: open the partition, then [addAll]. It
    touches no other partition, and writes only when it succeeds. *)
Lemma bulk_write_run name paths s :
  let t := cache <- caches_open env name ;; cache_addAll env cache paths in
  skipWaiting_called (events (t s)) = false
  /\ (forall name', name <> name' ->
        partition (storage (t s)) name' = partition s name')
  /\ if bulk_write_succeeds env name paths
     then exists entries,
         result (t s) = Fulfilled tt
         /\ entries.*1 = url_of_path env <$> paths
         /\ Forall (fun e => settled (network env (GET e.1)) = Resolves e.2) entries
         /\ partition (storage (t s)) name
            = foldl (fun c e => cache_store e.1 e.2 c) (partition s name) entries
     else exists e,
         result (t s) = Rejected e
         /\ partition (storage (t s)) name = partition s name.
Proof.
  assert (forall cache keys,
             skipWaiting_called
               (EvCacheOpen name :: EvCacheAddAll cache keys :: (EvFetch <$> (GET <$> keys)))
             = false) as Hquiet
    by (intros; apply (skipWaiting_called_fetches (GET <$> keys))).
  intros t. subst t. unfold bulk_write_succeeds, cache_addAll. unfold_host.
  destruct (cache_fault env OpOpen name); cbn [negb andb]; task_simpl.
  { split; [reflexivity | eauto]. }
  destruct (cache_fault env OpAddAll name); cbn [negb andb]; task_simpl.
  { split; [apply Hquiet |]. split; [| eexists; split; [reflexivity |]];
      intros; apply partition_opened. }
  pose proof (fetch_all_ok_spec paths) as Hall.
  destruct (forallb (fetched_ok env) paths).
  - destruct Hall as (entries & -> & Hkeys & Hall). task_simpl.
    split; [apply Hquiet |]. split.
    + intros name' Hne. rewrite partition_set_ne, partition_opened by exact Hne.
      reflexivity.
    + exists entries. repeat split; try assumption.
      rewrite partition_set_eq, partition_opened. reflexivity.
  - destruct Hall as [e ->]. task_simpl.
    split; [apply Hquiet |]. split; [| eexists; split; [reflexivity |]];
      intros; apply partition_opened.
Qed.

(** The install handler, in terms of its two bulk writes. *)
Lemma onInstall_run s :
  let o1 := precacheStatic env s in
  let o2 := precacheImages env (storage o1) in
  let o := onInstall env s in
  result o = Fulfilled tt
  /\ storage o = storage o2
  /\ match result o1, result o2 with
     | Fulfilled _, Fulfilled _ =>
         events o = (events o1 ++ events o2 ++ [EvSkipWaiting])%list
     | Rejected e, _ | Fulfilled _, Rejected e =>
         events o = (events o1 ++ events o2 ++ [EvConsoleError INSTALL_FAILED e])%list
     end.
Proof.
  unfold onInstall. cbn [Promise_all]. task_simpl.
  destruct (precacheStatic env s) as [r1 s1 evs1].
  cbn [result storage events].
  destruct (precacheImages env s1) as [r2 s2 evs2].
  cbn [result storage events]. unfold skipWaiting, console_error.
  destruct r1 as [[] | e1], r2 as [[] | e2]; cbn [app];
    rewrite ?app_nil_r, <- ?app_assoc; auto.
Qed.

Lemma bulk_write_result name paths s :
  (exists u, result ((cache <- caches_open env name ;; cache_addAll env cache paths) s)
             = Fulfilled u)
  <-> bulk_write_succeeds env name paths = true.
Proof.
  destruct (bulk_write_run name paths s) as (_ & _ & H).
  destruct (bulk_write_succeeds env name paths).
  - destruct H as (entries & -> & _). split; eauto.
  - destruct H as (e & -> & _). split; [intros [u Hu]; discriminate Hu | discriminate].
Qed.

End InstallFacts.

(** C1, as the code has it. The promise the install handler hands to
    [waitUntil] always fulfils. Skip-waiting is called exactly when both
    bulk writes fulfil, that is when both partitions open, [addAll] is not
    failed and every listed path is answered with an [ok] status. When
    either bulk write rejects, the rejection is logged through
    [console.error] as the last host call, and skip-waiting is not
    called. *)
Theorem C1_skipWaiting_only_after_both_writes env s :
  let o1 := precacheStatic env s in
  let o2 := precacheImages env (storage o1) in
  let o := onInstall env s in
  result o = Fulfilled tt
  /\ (skipWaiting_called (events o) = true
      <-> result o1 = Fulfilled tt /\ result o2 = Fulfilled tt)
  /\ (skipWaiting_called (events o) =
      bulk_write_succeeds env STATIC_CACHE STATIC_ASSETS
      && bulk_write_succeeds env IMAGE_CACHE
           (filter (fun url => url <> EmptyString) CRITICAL_IMAGES))
  /\ (forall e, result o1 = Rejected e \/ result o2 = Rejected e ->
        skipWaiting_called (events o) = false
        /\ exists (calls : list Event) e',
            events o = (calls ++ [EvConsoleError INSTALL_FAILED e'])%list).
Proof.
  intros o1 o2 o.
  destruct (onInstall_run env s) as (Hres & _ & Hevs). fold o1 o2 o in Hres, Hevs.
  destruct (bulk_write_run env STATIC_CACHE STATIC_ASSETS s) as (Hq1 & _ & H1).
  destruct (bulk_write_run env IMAGE_CACHE
              (filter (fun url => url <> EmptyString) CRITICAL_IMAGES) (storage o1))
    as (Hq2 & _ & H2).
  fold (precacheStatic env) in Hq1, H1. fold o1 in Hq1, H1.
  fold (precacheImages env) in Hq2, H2. fold o2 in Hq2, H2.
  assert (skipWaiting_called (events o) =
          match result o1, result o2 with
          | Fulfilled _, Fulfilled _ => true
          | _, _ => false
          end) as Hcalled.
  { destruct (result o1) as [[] | e1], (result o2) as [[] | e2]; rewrite Hevs;
      rewrite !skipWaiting_called_app, Hq1, Hq2; reflexivity. }
  split; [exact Hres |]. split; [| split].
  - rewrite Hcalled.
    destruct (result o1) as [[] | e1], (result o2) as [[] | e2];
      split; try discriminate; try tauto; intros [? ?]; discriminate.
  - rewrite Hcalled.
    destruct (bulk_write_succeeds env STATIC_CACHE STATIC_ASSETS).
    + destruct H1 as (entries1 & -> & _).
      destruct (bulk_write_succeeds env IMAGE_CACHE _).
      * destruct H2 as (entries2 & -> & _). reflexivity.
      * destruct H2 as (e & -> & _). reflexivity.
    + destruct H1 as (e & -> & _). reflexivity.
  - intros e He. rewrite Hcalled.
    destruct (result o1) as [[] | e1], (result o2) as [[] | e2];
      try (destruct He; discriminate); (split; [reflexivity |]);
      rewrite Hevs, app_assoc; eauto.
Qed.

(** C1, as stated, fails: with the network down the static bulk write
    rejects, the handler's promise fulfils, and skip-waiting is not
    called. *)
Lemma C1_counterexample :
  result (precacheStatic offline_env ∅) = Rejected NetworkError
  /\ result (onInstall offline_env ∅) = Fulfilled tt
  /\ skipWaiting_called (events (onInstall offline_env ∅)) = false.
Proof. vm_compute. repeat split. Qed.

(** ** The offline page *)

Section OfflinePageFacts.

Variable env : Env.

Lemma getOfflinePage_run s :
  readable env STATIC_CACHE ->
  getOfflinePage env s =
  {| result := Fulfilled
                 (default SYNTHESIZED_OFFLINE_PAGE
                    (cache_find (url_of_path env "/") (partition s STATIC_CACHE)));
     storage := set_partition STATIC_CACHE (partition s STATIC_CACHE) s;
     events := [EvCacheOpen STATIC_CACHE;
                EvCacheMatch STATIC_CACHE (url_of_path env "/")] |}.
Proof.
  intros [Hopen Hmatch]. unfold getOfflinePage. unfold_host.
  rewrite Hopen. task_simpl. rewrite Hmatch. task_simpl.
  rewrite partition_opened.
  destruct (cache_find _ _); reflexivity.
Qed.

Lemma root_written_once :
  url_of_path env "/" ∉ url_of_path env <$> tail STATIC_ASSETS.
Proof.
  intros (path & Heq & Hin)%list_elem_of_fmap.
  injection Heq as <-. apply list_elem_of_In in Hin. simpl in Hin.
  intuition discriminate.
Qed.

(** After a static bulk write that fulfilled, the root is in the static
    partition, with the answer the network gave for it. *)
Lemma root_cached_by_install s :
  result (precacheStatic env s) = Fulfilled tt ->
  exists home,
    settled (network env (GET (url_of_path env "/"))) = Resolves home
    /\ cache_find (url_of_path env "/")
         (partition (storage (onInstall env s)) STATIC_CACHE) = Some home.
Proof.
  intros Hdone.
  destruct (onInstall_run env s) as (_ & -> & _).
  destruct (bulk_write_run env IMAGE_CACHE
              (filter (fun url => url <> EmptyString) CRITICAL_IMAGES)
              (storage (precacheStatic env s))) as (_ & Hother & _).
  fold (precacheImages env) in Hother. rewrite Hother by discriminate.
  destruct (bulk_write_run env STATIC_CACHE STATIC_ASSETS s) as (_ & _ & H).
  fold (precacheStatic env) in H.
  destruct (bulk_write_succeeds env STATIC_CACHE STATIC_ASSETS).
  - destruct H as (entries & _ & Hkeys & Hnet & ->).
    destruct entries as [|[key home] entries]; [discriminate Hkeys |].
    injection Hkeys as -> Hkeys. exists home. split.
    + apply Forall_cons in Hnet as [Hnet _]. exact Hnet.
    + apply cache_find_stored_first.
      assert (entries.*1 = url_of_path env <$> tail STATIC_ASSETS) as ->
        by exact Hkeys.
      apply root_written_once.
  - destruct H as (e & He & _). congruence.
Qed.

End OfflinePageFacts.

(** C9. The offline-page fallback looks up the root path in the static
    partition first: when there is an entry, that entry is the answer and
    nothing is synthesized; only when there is none is the offline page made
    up. After an install whose static bulk write went through, the entry is
    there, so the fallback answers with the cached home page, the response
    the network gave for the root at install time, whatever the network
    does by then. *)
Theorem C9_offline_page_is_cached_root env env' s :
  location_origin env' = location_origin env ->
  readable env' STATIC_CACHE ->
  result (getOfflinePage env' s) =
  Fulfilled
    match cache_find (url_of_path env' "/") (partition s STATIC_CACHE) with
    | Some home => home
    | None => SYNTHESIZED_OFFLINE_PAGE
    end
  /\ events (getOfflinePage env' s) =
     [EvCacheOpen STATIC_CACHE; EvCacheMatch STATIC_CACHE (url_of_path env' "/")]
  /\ (result (precacheStatic env s) = Fulfilled tt ->
      exists home,
        settled (network env (GET (url_of_path env "/"))) = Resolves home
        /\ result (getOfflinePage env' (storage (onInstall env s))) = Fulfilled home).
Proof.
  intros Horigin Hread. rewrite !getOfflinePage_run by exact Hread.
  cbn [result events].
  split; [destruct (cache_find _ _); reflexivity |]. split; [reflexivity |].
  intros Hdone. destruct (root_cached_by_install env s Hdone) as (home & Hnet & Hroot).
  exists home. split; [exact Hnet |].
  unfold url_of_path in Hroot |- *. rewrite Horigin, Hroot. reflexivity.
Qed.

Lemma C9_witness :
  readable offline_env STATIC_CACHE
  /\ result (precacheStatic online_env ∅) = Fulfilled tt
  /\ result (getOfflinePage offline_env ∅) = Fulfilled SYNTHESIZED_OFFLINE_PAGE
  /\ exists home,
       settled (network online_env (GET (url_of_path online_env "/"))) = Resolves home
       /\ result (getOfflinePage offline_env installed) = Fulfilled home.
Proof.
  assert (readable offline_env STATIC_CACHE) as Hread by (split; reflexivity).
  assert (result (precacheStatic online_env ∅) = Fulfilled tt) as Hdone
    by (vm_compute; reflexivity).
  split; [exact Hread |]. split; [exact Hdone |].
  destruct (C9_offline_page_is_cached_root online_env offline_env ∅ eq_refl Hread)
    as (Hpage & _ & Hhome).
  split; [exact Hpage | exact (Hhome Hdone)].
Defined.

(** ** HTML pages *)

(** C3, as the code has it. An HTML-page request whose network attempt
    fails or times out is looked up in the dynamic partition; an entry
    there is the answer. With no entry the answer is that of the
    offline-page fallback: the entry of the root path in the static
    partition when there is one, and otherwise the synthesized offline page,
    which has status 200, content type text/html, a no-cache directive and
    the text You're Offline in its body. *)
Theorem C3_html_page_network_failure env request s :
  isStaticAsset (pathname (url request)) = false ->
  isImage (pathname (url request)) = false ->
  isHTMLPage (pathname (url request)) = true ->
  readable env DYNAMIC_CACHE ->
  readable env STATIC_CACHE ->
  network_fails env request NETWORK_TIMEOUT ->
  EvCacheMatch DYNAMIC_CACHE (url request) ∈ events (handleFetch env request s)
  /\ result (handleFetch env request s) =
     Fulfilled
       match cache_find (url request) (partition s DYNAMIC_CACHE) with
       | Some cached => cached
       | None =>
           match cache_find (url_of_path env "/") (partition s STATIC_CACHE) with
           | Some home => home
           | None => SYNTHESIZED_OFFLINE_PAGE
           end
       end
  /\ status SYNTHESIZED_OFFLINE_PAGE = 200
  /\ headers SYNTHESIZED_OFFLINE_PAGE =
     [("Content-Type", "text/html"); ("Cache-Control", "no-cache")]
  /\ includes (body SYNTHESIZED_OFFLINE_PAGE) "You're Offline" = true.
Proof.
  intros Hs Hi Hh [Hopen Hmatch] Hstatic Hnet.
  unfold handleFetch. rewrite Hs, Hi, Hh. unfold handleHTMLPage. unfold_host.
  rewrite Hopen. task_simpl.
  destruct (fetchWithTimeout_fails env request NETWORK_TIMEOUT
              (set_partition DYNAMIC_CACHE (partition s DYNAMIC_CACHE) s) Hnet)
    as [e ->].
  task_simpl. rewrite Hmatch. task_simpl. rewrite partition_opened.
  destruct (cache_find (url request) (partition s DYNAMIC_CACHE)) as [cached |].
  - task_simpl. split; [set_solver |]. repeat split.
  - rewrite getOfflinePage_run by exact Hstatic. task_simpl.
    rewrite partition_opened.
    split; [set_solver |]. split; [| repeat split].
    destruct (cache_find _ _); reflexivity.
Qed.

Lemma C3_witness :
  EvCacheMatch DYNAMIC_CACHE (url (sample_request "/about"))
    ∈ events (handleFetch offline_env (sample_request "/about") ∅)
  /\ result (handleFetch offline_env (sample_request "/about") ∅)
     = Fulfilled SYNTHESIZED_OFFLINE_PAGE
  /\ status SYNTHESIZED_OFFLINE_PAGE = 200
  /\ headers SYNTHESIZED_OFFLINE_PAGE =
     [("Content-Type", "text/html"); ("Cache-Control", "no-cache")]
  /\ includes (body SYNTHESIZED_OFFLINE_PAGE) "You're Offline" = true.
Proof.
  exact (C3_html_page_network_failure offline_env (sample_request "/about") ∅
           eq_refl eq_refl eq_refl (conj eq_refl eq_refl) (conj eq_refl eq_refl)
           (or_introl eq_refl)).
Defined.

(** C3, as stated, fails: after an install with the site up, an HTML-page
    request that finds the network down and no entry in the dynamic
    partition is answered with the cached home page, whose body does not
    hold the offline text. *)
Lemma C3_counterexample :
  cache_find (url (sample_request "/about")) (partition installed DYNAMIC_CACHE) = None
  /\ result (handleFetch offline_env (sample_request "/about") installed)
     = Fulfilled (served (sample_request "/"))
  /\ includes (body (served (sample_request "/"))) "You're Offline" = false.
Proof. vm_compute. repeat split. Qed.

(** ** Static assets *)





(** ** The top-level fallback *)

Lemma getPlaceholderImage_run env s :
  readable env IMAGE_CACHE ->
  getPlaceholderImage env s =
  {| result := Fulfilled
                 (default SYNTHESIZED_PLACEHOLDER
                    (cache_find (url_of_path env "/assets/images/placeholder.jpg")
                       (partition s IMAGE_CACHE)));
     storage := set_partition IMAGE_CACHE (partition s IMAGE_CACHE) s;
     events := [EvCacheOpen IMAGE_CACHE;
                EvCacheMatch IMAGE_CACHE
                  (url_of_path env "/assets/images/placeholder.jpg")] |}.
Proof.
  intros [Hopen Hmatch]. unfold getPlaceholderImage. unfold_host.
  rewrite Hopen. task_simpl. rewrite Hmatch. task_simpl.
  rewrite partition_opened.
  destruct (cache_find _ _); reflexivity.
Qed.

(** C6, as the code has it. Whatever a strategy throws is caught and
    handed to the top-level fallback, and [handleFetch] then answers,
    provided the fallback's own cache access does not fail: the images
    partition for an image path, the static partition for an HTML-shaped
    path. For every other path nothing is needed, and the answer to a
    strategy that threw is the synthesized 503. *)
Theorem C6_fallback_answers env request s :
  (isImage (pathname (url request)) = true -> readable env IMAGE_CACHE) ->
  (isImage (pathname (url request)) = false ->
   isHTMLPage (pathname (url request)) = true -> readable env STATIC_CACHE) ->
  (exists r, result (handleFetch env request s) = Fulfilled r)
  /\ (isImage (pathname (url request)) = false ->
      isHTMLPage (pathname (url request)) = false ->
      forall e,
        result (strategy_handler env (route (pathname (url request))) request s)
        = Rejected e ->
        result (handleFetch env request s) = Fulfilled SERVICE_UNAVAILABLE).
Proof.
  intros Himage Hhtml. rewrite handleFetch_route.
  unfold try_catch.
  destruct (strategy_handler env (route (pathname (url request))) request s)
    as [[r | e] s' evs]; cbn [result].
  { split; [eauto | discriminate]. }
  unfold handleOfflineFallback, console_error. task_simpl.
  destruct (isImage (pathname (url request))).
  { rewrite getPlaceholderImage_run by auto. cbn [result].
    split; [eauto | discriminate]. }
  destruct (isHTMLPage (pathname (url request))).
  { rewrite getOfflinePage_run by auto. cbn [result].
    split; [eauto | discriminate]. }
  task_simpl. split; [eauto | reflexivity].
Qed.

Lemma C6_witness :
  result (handleDynamic broken_cache_env (sample_request "/api/projects.json") ∅)
  = Rejected (CacheFailure OpOpen DYNAMIC_CACHE)
  /\ result (handleFetch broken_cache_env (sample_request "/api/projects.json") ∅)
     = Fulfilled SERVICE_UNAVAILABLE.
Proof.
  assert (result (handleDynamic broken_cache_env (sample_request "/api/projects.json") ∅)
          = Rejected (CacheFailure OpOpen DYNAMIC_CACHE)) as Hthrown
    by (vm_compute; reflexivity).
  split; [exact Hthrown |].
  refine (proj2 (C6_fallback_answers broken_cache_env
                   (sample_request "/api/projects.json") ∅ _ _)
            eq_refl eq_refl _ Hthrown).
  - intros Himage. vm_compute in Himage. discriminate Himage.
  - intros _ Hhtml. vm_compute in Hhtml. discriminate Hhtml.
Defined.

(** C6, as stated, fails: when the images partition cannot be opened, the
    fallback of an image request throws in its turn, and [handleFetch]
    rejects. *)
Lemma C6_counterexample :
  result (handleFetch broken_cache_env
            (sample_request "/assets/images/project-1-medium.jpg") ∅)
  = Rejected (CacheFailure OpOpen IMAGE_CACHE).
Proof. vm_compute. reflexivity. Qed.

(** ** Trimming *)

Section TrimFacts.

Variable env : Env.

Lemma cache_remove_fresh key c : key ∉ c.*1 -> cache_remove key c = c.
Proof.
  unfold cache_remove. induction c as [|[k r] c IH]; [reflexivity |].
  rewrite fmap_cons, not_elem_of_cons. cbn [fst]. intros [Hne Hfresh].
  rewrite filter_cons_True by (cbn [fst]; congruence).
  rewrite IH by exact Hfresh. reflexivity.
Qed.

Lemma cache_remove_head k r c : k ∉ c.*1 -> cache_remove k ((k, r) :: c) = c.
Proof.
  intros Hfresh. unfold cache_remove.
  rewrite filter_cons_False by (cbn [fst]; auto).
  apply cache_remove_fresh, Hfresh.
Qed.

(** Deleting the first [d] keys of a partition leaves the rest of it. *)
Lemma remove_oldest c d :
  NoDup c.*1 ->
  foldl (fun c k => cache_remove k c) c (take d c.*1) = drop d c.
Proof.
  revert c. induction d as [|d IH]; intros c Hnodup; [reflexivity |].
  destruct c as [|[k r] c]; [reflexivity |].
  rewrite fmap_cons in Hnodup. apply NoDup_cons in Hnodup as [Hfresh Hnodup].
  cbn [fmap list_fmap fst take foldl drop].
  rewrite cache_remove_head by exact Hfresh. apply IH, Hnodup.
Qed.

Lemma Promise_all_delete name keys s :
  cache_fault env OpDelete name = false ->
  exists found s',
    Promise_all (cache_delete env name <$> keys) s =
    {| result := Fulfilled found; storage := s';
       events := EvCacheDelete name <$> keys |}
    /\ partition s' name = foldl (fun c k => cache_remove k c) (partition s name) keys
    /\ forall name', name <> name' -> partition s' name' = partition s name'.
Proof.
  intros Hdelete. revert s.
  induction keys as [|key keys IH]; intros s; cbn [fmap list_fmap Promise_all].
  - exists [], s. auto.
  - unfold cache_delete at 1, cache_call. rewrite Hdelete. cbn [fst snd].
    destruct (IH (set_partition name (cache_remove key (partition s name)) s))
      as (found & s' & -> & Hthis & Hother).
    eexists _, s'. split; [reflexivity |]. split.
    + rewrite Hthis, partition_set_eq. reflexivity.
    + intros name' Hne. rewrite Hother, partition_set_ne by exact Hne. reflexivity.
Qed.

(** [limitCacheSize] on a partition that can be listed and deleted from:
    the oldest keys beyond the bound are deleted, one by one. *)
Lemma limitCacheSize_run name maxSize s :
  cache_fault env OpOpen name = false ->
  cache_fault env OpKeys name = false ->
  cache_fault env OpDelete name = false ->
  let keys := (partition s name).*1 in
  let keysToDelete := take (length keys - maxSize) keys in
  exists s',
    limitCacheSize env name maxSize s =
    {| result := Fulfilled tt; storage := s';
       events := EvCacheOpen name :: EvCacheKeys name
                 :: (EvCacheDelete name <$> keysToDelete) |}
    /\ partition s' name
       = foldl (fun c k => cache_remove k c) (partition s name) keysToDelete
    /\ forall name', name <> name' -> partition s' name' = partition s name'.
Proof.
  intros Hopen Hkeys Hdelete keys keysToDelete.
  unfold limitCacheSize. unfold caches_open, cache_keys, cache_call.
  rewrite Hopen. task_simpl. rewrite Hkeys. task_simpl.
  rewrite partition_opened. fold keys.
  destruct (Nat.ltb_spec maxSize (length keys)) as [Hover | Hfits].
  - fold keysToDelete.
    destruct (Promise_all_delete name keysToDelete
                (set_partition name (partition s name) s) Hdelete)
      as (found & s' & -> & Hthis & Hother).
    task_simpl. exists s'. rewrite app_nil_r.
    split; [reflexivity |]. split.
    + rewrite Hthis, partition_opened. reflexivity.
    + intros name' Hne. rewrite Hother, partition_opened by exact Hne. reflexivity.
  - task_simpl. eexists. split; [| split].
    + subst keysToDelete. replace (length keys - maxSize) with 0 by lia.
      reflexivity.
    + subst keysToDelete. replace (length keys - maxSize) with 0 by lia.
      rewrite partition_opened. reflexivity.
    + intros name' Hne. apply partition_opened.
Qed.

(** A partition whose keys are distinct is cut down to its newest
    [maxSize] entries. *)
Lemma limitCacheSize_trims name maxSize s :
  cache_fault env OpOpen name = false ->
  cache_fault env OpKeys name = false ->
  cache_fault env OpDelete name = false ->
  NoDup (partition s name).*1 ->
  let excess := length (partition s name) - maxSize in
  exists s',
    limitCacheSize env name maxSize s =
    {| result := Fulfilled tt; storage := s';
       events := EvCacheOpen name :: EvCacheKeys name
                 :: (EvCacheDelete name <$> take excess (partition s name).*1) |}
    /\ partition s' name = drop excess (partition s name)
    /\ forall name', name <> name' -> partition s' name' = partition s name'.
Proof.
  intros Hopen Hkeys Hdelete Hnodup excess.
  destruct (limitCacheSize_run name maxSize s Hopen Hkeys Hdelete)
    as (s' & Hrun & Hthis & Hother).
  rewrite length_fmap in Hrun, Hthis. fold excess in Hrun, Hthis.
  exists s'. split; [exact Hrun |]. split; [| exact Hother].
  rewrite Hthis. apply remove_oldest, Hnodup.
Qed.

End TrimFacts.

(** ** First in, first out *)

Section FifoFacts.

Variable env : Env.
Variable name : string.
Variable maxSize : nat.
Hypothesis Husable : usable env name.

Lemma cache_store_fresh_keys key r c :
  key ∉ c.*1 -> (cache_store key r c).*1 = c.*1 ++ [key].
Proof.
  intros Hfresh. unfold cache_store.
  rewrite cache_remove_fresh by exact Hfresh. rewrite fmap_app. reflexivity.
Qed.

Lemma deleted_keys_app evs evs' :
  deleted_keys name (evs ++ evs') = deleted_keys name evs ++ deleted_keys name evs'.
Proof. apply omap_app. Qed.

Lemma deleted_keys_deletes keys :
  deleted_keys name (EvCacheDelete name <$> keys) = keys.
Proof.
  induction keys as [|key keys IH]; [reflexivity |].
  cbn [fmap list_fmap]. unfold deleted_keys. cbn [omap list_omap].
  rewrite decide_True by reflexivity. f_equal. exact IH.
Qed.

(** One write: the trimming works on what it is shown, which is the
    partition with the new entry only where the put lands first; the entry
    is there when the request is done. *)
Lemma bounded_write_settles key r s :
  let shown :=
    if put_lands_first env then cache_store key r (partition s name)
    else partition s name in
  let keysToDelete := take (length shown - maxSize) shown.*1 in
  let trimmed := foldl (fun c k => cache_remove k c) shown keysToDelete in
  exists s',
    bounded_write env name maxSize key r s =
    {| result := Fulfilled tt; storage := s';
       events := EvCachePut name key r :: EvCacheOpen name :: EvCacheKeys name
                 :: (EvCacheDelete name <$> keysToDelete) |}
    /\ partition s' name
       = (if put_lands_first env then trimmed else cache_store key r trimmed)
    /\ forall name', name <> name' -> partition s' name' = partition s name'.
Proof.
  intros shown keysToDelete trimmed.
  unfold bounded_write, cache_put. task_simpl.
  destruct (limitCacheSize_run env name maxSize
              (if put_lands_first env then put_entry env name key r s else s)
              (Husable OpOpen) (Husable OpKeys) (Husable OpDelete))
    as (s' & -> & Hthis & Hother).
  cbn [foldl land]. rewrite land_deletes.
  assert (partition (if put_lands_first env then put_entry env name key r s else s) name
          = shown) as Hshown.
  { subst shown. unfold put_entry. rewrite (Husable OpPut).
    destruct (put_lands_first env); [apply partition_set_eq | reflexivity]. }
  rewrite Hshown, length_fmap in *. fold keysToDelete in Hthis |- *. fold trimmed in Hthis.
  eexists. split; [reflexivity |].
  clear Hshown. clearbody trimmed. clear keysToDelete. clear shown.
  unfold put_entry in *. rewrite (Husable OpPut) in Hother |- *.
  destruct (put_lands_first env).
  - split; [exact Hthis |].
    intros name' Hne. rewrite Hother, partition_set_ne by exact Hne. reflexivity.
  - split; [rewrite partition_set_eq, Hthis; reflexivity |].
    intros name' Hne. rewrite partition_set_ne, Hother by exact Hne. reflexivity.
Qed.

(** One write of a key that is not in the partition: the entry is
    appended, and the partition is held to [held_to env maxSize] entries by
    deleting the oldest ones. *)
Lemma bounded_write_run key r s :
  NoDup (partition s name).*1 ->
  key ∉ (partition s name).*1 ->
  let grown := partition s name ++ [(key, r)] in
  let excess := length grown - held_to env maxSize in
  result (bounded_write env name maxSize key r s) = Fulfilled tt
  /\ deleted_keys name (events (bounded_write env name maxSize key r s))
     = take excess grown.*1
  /\ partition (storage (bounded_write env name maxSize key r s)) name
     = drop excess grown.
Proof.
  intros Hnodup Hfresh grown excess.
  destruct (bounded_write_settles key r s) as (s' & -> & Hthis & _).
  cbn [result events storage].
  assert (cache_store key r (partition s name) = grown) as Hgrown
    by (unfold cache_store; rewrite cache_remove_fresh by exact Hfresh; reflexivity).
  assert (NoDup grown.*1) as Hnodup'.
  { subst grown. rewrite fmap_app. apply NoDup_app. split; [exact Hnodup |]. split.
    - intros k Hk Hin. apply list_elem_of_singleton in Hin. subst k. auto.
    - apply NoDup_singleton. }
  assert (forall evs, deleted_keys name
            (EvCachePut name key r :: EvCacheOpen name :: EvCacheKeys name :: evs)
          = deleted_keys name evs) as Hskip by reflexivity.
  rewrite Hskip, deleted_keys_deletes, Hthis.
  subst excess. unfold held_to. destruct (put_lands_first env).
  - rewrite Hgrown. split; [reflexivity |]. split; [reflexivity |].
    apply remove_oldest, Hnodup'.
  - set (d := length (partition s name) - maxSize).
    assert (length grown - S maxSize = d) as ->
      by (subst grown d; rewrite length_app; cbn [length]; lia).
    assert (d <= length (partition s name)) as Hd by (subst d; lia).
    rewrite remove_oldest by exact Hnodup.
    split; [reflexivity |]. subst grown. split.
    + rewrite fmap_app, take_app_le by (rewrite length_fmap; exact Hd). reflexivity.
    + rewrite drop_app_le by exact Hd.
      unfold cache_store. rewrite cache_remove_fresh; [reflexivity |].
      intros Hin. apply Hfresh. rewrite fmap_drop in Hin.
      eapply elem_of_sublist; [exact Hin | apply sublist_drop].
Qed.

Lemma cache_read_run key s :
  result (cache_read env name key s)
  = Fulfilled (cache_find key (partition s name))
  /\ deleted_keys name (events (cache_read env name key s)) = []
  /\ partition (storage (cache_read env name key s)) name = partition s name.
Proof.
  unfold cache_read. unfold_host. rewrite (Husable OpOpen). task_simpl.
  rewrite (Husable OpMatch). task_simpl.
  rewrite !partition_opened. repeat split.
Qed.

(** Trimming after each append is trimming once at the end. *)
Lemma trim_incremental {A} (bound : nat) (old new : list A) :
  let excess := length old - bound in
  let kept := drop excess old in
  take excess old ++ take (length (kept ++ new) - bound) (kept ++ new)
  = take (length (old ++ new) - bound) (old ++ new)
  /\ drop (length (kept ++ new) - bound) (kept ++ new)
     = drop (length (old ++ new) - bound) (old ++ new).
Proof.
  intros excess kept. subst kept.
  destruct (Nat.le_gt_cases (length old) bound) as [Hfits | Hover].
  - subst excess. replace (length old - bound) with 0 by lia.
    rewrite drop_0. auto.
  - assert (length (drop excess old ++ new) - bound = length new) as ->
      by (rewrite length_app, length_drop; subst excess; lia).
    assert (length (old ++ new) - bound = excess + length new) as ->
      by (rewrite length_app; subst excess; lia).
    assert (length (take excess old) = excess) as Hlen
      by (rewrite length_take; subst excess; lia).
    assert (old = take excess old ++ drop excess old) as Hsplit
      by (symmetry; apply take_drop).
    revert Hlen Hsplit.
    generalize (take excess old) (drop excess old). intros front back Hlen ->.
    rewrite <- !app_assoc.
    rewrite take_app_add', drop_app_add' by (symmetry; exact Hlen). auto.
Qed.

Lemma run_accesses_fifo accesses :
  forall s,
    NoDup ((partition s name).*1 ++ written_keys accesses) ->
    length (partition s name) <= held_to env maxSize ->
    let keys := (partition s name).*1 ++ written_keys accesses in
    let o := run_accesses env name maxSize accesses s in
    result o = Fulfilled tt
    /\ deleted_keys name (events o) = take (length keys - held_to env maxSize) keys
    /\ (partition (storage o) name).*1 = drop (length keys - held_to env maxSize) keys.
Proof.
  induction accesses as [|[key r | key] accesses IH]; intros s Hnodup Hbound;
    cbn [run_accesses written_keys omap list_omap] in *;
    try fold (written_keys accesses) in *.
  - rewrite app_nil_r. cbv [ret]. cbn [result events storage].
    replace (length (partition s name).*1 - held_to env maxSize) with 0
      by (rewrite length_fmap; lia).
    auto.
  - assert (NoDup (partition s name).*1 /\ key ∉ (partition s name).*1) as [Hold Hfresh].
    { apply NoDup_app in Hnodup as (Hold & Hdisj & _). split; [exact Hold |].
      intros Hin. apply (Hdisj _ Hin). left. }
    destruct (bounded_write_run key r s Hold Hfresh) as (Hres & Hdel & Hpart).
    set (grown := partition s name ++ [(key, r)]) in *.
    set (excess := length grown - held_to env maxSize) in *.
    unfold bind.
    destruct (bounded_write env name maxSize key r s) as [res s1 evs1].
    cbn [result events storage] in Hres, Hdel, Hpart. subst res.
    assert (grown.*1 ++ written_keys accesses
            = (partition s name).*1 ++ key :: written_keys accesses) as Hkeys
      by (subst grown; rewrite fmap_app, <- app_assoc; reflexivity).
    destruct (IH s1) as (Hres' & Hdel' & Hpart').
    { rewrite Hpart, fmap_drop.
      rewrite <- Hkeys in Hnodup.
      rewrite <- (take_drop excess grown.*1), <- app_assoc in Hnodup.
      apply NoDup_app in Hnodup as (_ & _ & Hnodup). exact Hnodup. }
    { rewrite Hpart, length_drop. subst excess. lia. }
    destruct (run_accesses env name maxSize accesses s1) as [res' s2 evs2].
    cbn [result events storage preceded_by] in *.
    rewrite Hpart, fmap_drop in Hdel', Hpart'.
    destruct (trim_incremental (held_to env maxSize) grown.*1 (written_keys accesses))
      as [Htake Hdrop].
    rewrite length_fmap in Htake, Hdrop. fold excess in Htake, Hdrop.
    rewrite <- Hkeys.
    split; [exact Hres' |]. split.
    + rewrite deleted_keys_app, Hdel, Hdel'. exact Htake.
    + rewrite Hpart'. exact Hdrop.
  - destruct (cache_read_run key s) as (Hres & Hdel & Hpart).
    unfold bind.
    destruct (cache_read env name key s) as [res s1 evs1].
    cbn [result events storage] in Hres, Hdel, Hpart. subst res.
    destruct (IH s1) as (Hres' & Hdel' & Hpart').
    { rewrite Hpart. exact Hnodup. }
    { rewrite Hpart. exact Hbound. }
    destruct (run_accesses env name maxSize accesses s1) as [res' s2 evs2].
    cbn [result events storage preceded_by] in *.
    rewrite Hpart in Hdel', Hpart'.
    split; [exact Hres' |]. split; [| exact Hpart'].
    rewrite deleted_keys_app, Hdel, Hdel'. reflexivity.
Qed.

End FifoFacts.

(** C5 fails where the put lands after the trimming has listed the keys.
    On a partition that starts empty, a history of writes of N distinct
    keys, each followed by the trimming, with any lookups in between,
    deletes the oldest keys first, in the order they were written, and
    lookups change nothing; but the trimming runs while the put it follows
    is still pending, so that it holds the partition to L + 1 entries and
    deletes N - L - 1 keys, not N - L. Only a host that lands the put before
    it lists the keys deletes N - L and leaves L. *)
Theorem C5_trimming_misses_pending_put env name maxSize accesses s :
  usable env name ->
  partition s name = [] ->
  NoDup (written_keys accesses) ->
  let n := length (written_keys accesses) in
  let held := if put_lands_first env then maxSize else S maxSize in
  let o := run_accesses env name maxSize accesses s in
  result o = Fulfilled tt
  /\ length (deleted_keys name (events o)) = n - held
  /\ deleted_keys name (events o) = take (n - held) (written_keys accesses)
  /\ (partition (storage o) name).*1 = drop (n - held) (written_keys accesses).
Proof.
  intros Husable Hempty Hnodup n held o.
  destruct (run_accesses_fifo env name maxSize Husable accesses s)
    as (Hres & Hdel & Hpart).
  { rewrite Hempty. exact Hnodup. }
  { rewrite Hempty. cbn. lia. }
  rewrite Hempty in Hdel, Hpart. cbn [fmap list_fmap app] in Hdel, Hpart.
  change (held_to env maxSize) with held in Hdel, Hpart.
  fold n o in Hdel, Hpart, Hres.
  split; [exact Hres |]. split; [| split; [exact Hdel | exact Hpart]].
  rewrite Hdel, length_take. lia.
Qed.

(** Fifty-one photographs written into the images partition, which is to
    hold fifty: nothing is deleted and all fifty-one are kept. *)
Lemma C5_witness :
  length (written_keys photo_history) = 51
  /\ MAX_IMAGE_CACHE_SIZE = 50
  /\ result (run_accesses online_env IMAGE_CACHE MAX_IMAGE_CACHE_SIZE photo_history ∅)
     = Fulfilled tt
  /\ deleted_keys IMAGE_CACHE
       (events (run_accesses online_env IMAGE_CACHE MAX_IMAGE_CACHE_SIZE photo_history ∅))
     = []
  /\ (partition
        (storage (run_accesses online_env IMAGE_CACHE MAX_IMAGE_CACHE_SIZE photo_history ∅))
        IMAGE_CACHE).*1
     = url <$> photos.
Proof.
  split; [reflexivity |]. split; [reflexivity |].
  assert (usable online_env IMAGE_CACHE) as Husable by (intros op; reflexivity).
  assert (NoDup (written_keys photo_history)) as Hnodup
    by (apply (bool_decide_unpack _); vm_compute; exact I).
  assert (partition (∅ : CacheStorage) IMAGE_CACHE = []) as Hempty
    by (vm_compute; reflexivity).
  destruct (C5_trimming_misses_pending_put online_env IMAGE_CACHE MAX_IMAGE_CACHE_SIZE
              photo_history ∅ Husable Hempty Hnodup)
    as (Hres & _ & Hdel & Hkept).
  split; [exact Hres |]. split.
  - rewrite Hdel. vm_compute. reflexivity.
  - rewrite Hkept. vm_compute. reflexivity.
Defined.

(** ** The bounds *)

Section BoundFacts.

Variable env : Env.

Lemma cache_remove_sublist key c : sublist (cache_remove key c).*1 c.*1.
Proof.
  unfold cache_remove. induction c as [|[k r] c IH]; [constructor |].
  rewrite filter_cons. destruct (decide _); cbn [fmap list_fmap fst].
  - apply sublist_skip, IH.
  - apply sublist_cons, IH.
Qed.

Lemma cache_remove_gone key c : key ∉ (cache_remove key c).*1.
Proof.
  unfold cache_remove. intros ([k r] & Hk & Hin)%list_elem_of_fmap.
  apply list_elem_of_filter in Hin as [Hne _]. cbn [fst] in Hk, Hne. congruence.
Qed.

Lemma cache_store_NoDup key r c : NoDup c.*1 -> NoDup (cache_store key r c).*1.
Proof.
  intros Hnodup. unfold cache_store. rewrite fmap_app. apply NoDup_app.
  split; [eapply sublist_NoDup; [exact Hnodup | apply cache_remove_sublist] |].
  split; [| apply NoDup_singleton].
  intros k Hk Hin. apply list_elem_of_singleton in Hin. subst k.
  exact (cache_remove_gone key c Hk).
Qed.








End BoundFacts.

(** C2 fails on the HTML strategy. After thirty generic resources the
    dynamic partition is at its bound of thirty; the request of an HTML page
    that the network serves adds its entry and leaves thirty-one, on a host
    of either kind: [handleHTMLPage] does not call the trimming, and
    nothing is deleted. *)
Theorem C2_html_page_write_exceeds_bound :
  length (partition dynamic_full DYNAMIC_CACHE) = MAX_DYNAMIC_CACHE_SIZE
  /\ route "/about" = HTMLPage
  /\ result (handleFetch online_env (sample_request "/about") dynamic_full)
     = Fulfilled (served (sample_request "/about"))
  /\ length (partition
               (storage (handleFetch online_env (sample_request "/about") dynamic_full))
               DYNAMIC_CACHE) = 31
  /\ length (partition
               (storage (handleFetch put_first_env (sample_request "/about") dynamic_full))
               DYNAMIC_CACHE) = 31
  /\ deleted_keys DYNAMIC_CACHE
       (events (handleFetch online_env (sample_request "/about") dynamic_full)) = []
  /\ deleted_keys DYNAMIC_CACHE
       (events (handleFetch put_first_env (sample_request "/about") dynamic_full)) = [].
Proof. vm_compute. repeat split. Qed.

(** ** The strategies write through [bounded_write] *)

Section WriteFacts.

Variable env : Env.

Lemma bounded_write_fulfils name maxSize key r s :
  usable env name ->
  result (bounded_write env name maxSize key r s) = Fulfilled tt.
Proof.
  intros Husable.
  destruct (bounded_write_settles env name maxSize Husable key r s) as (s' & -> & _).
  reflexivity.
Qed.

(** An image that is not cached and that the network serves in time with
    an [ok] status is written as [bounded_write] does, and is the answer. *)
Lemma handleImage_miss_ok request s r :
  usable env IMAGE_CACHE ->
  cache_find (url request) (partition s IMAGE_CACHE) = None ->
  settled (network env request) = Resolves r ->
  latency (network env request) < NETWORK_TIMEOUT ->
  ok r = true ->
  result (handleImage env request s) = Fulfilled r
  /\ storage (handleImage env request s)
     = storage (bounded_write env IMAGE_CACHE MAX_IMAGE_CACHE_SIZE (url request) r
                  (set_partition IMAGE_CACHE (partition s IMAGE_CACHE) s)).
Proof.
  intros Husable Hmiss Hnet Hfast Hok. unfold handleImage.
  unfold caches_open, cache_match, cache_call.
  rewrite (Husable OpOpen). task_simpl. rewrite (Husable OpMatch). task_simpl.
  rewrite partition_opened, Hmiss. task_simpl.
  rewrite (fetchWithTimeout_resolves env request NETWORK_TIMEOUT r _ Hnet Hfast).
  task_simpl. rewrite Hok. task_simpl.
  set (s1 := set_partition IMAGE_CACHE (partition s IMAGE_CACHE) s).
  unfold bounded_write, cache_put. task_simpl.
  destruct (limitCacheSize_run env IMAGE_CACHE MAX_IMAGE_CACHE_SIZE
              (if put_lands_first env
               then put_entry env IMAGE_CACHE (url request) r s1 else s1)
              (Husable OpOpen) (Husable OpKeys) (Husable OpDelete))
    as (s' & -> & _).
  task_simpl. rewrite ?app_nil_r, !land_deletes. split; reflexivity.
Qed.


(** What the fetch listener hands to [respondWith]. *)
Lemma onFetch_intercepts request t :
  onFetch env request = Some t
  <-> method request = "GET"
      /\ origin (url request) = location_origin env
      /\ t = handleFetch env request.
Proof.
  unfold onFetch.
  destruct (String.eqb_spec (method request) "GET") as [Hget | Hget]; cbn [negb].
  - destruct (String.eqb_spec (origin (url request)) (location_origin env))
      as [Hsame | Hcross]; cbn [negb].
    + split; [intros [= <-]; auto | intros (_ & _ & ->); reflexivity].
    + split; [discriminate | intros (_ & Hsame & _); contradiction].
  - split; [discriminate | intros (Hget' & _); contradiction].
Qed.

End WriteFacts.

(** Fifty-one photographs requested in turn, with the site up, from
    nothing: every trimming has listed the keys before the photograph of its
    request was stored, and the images partition ends with all fifty-one. *)
Example fifty_one_photographs :
  (partition
     (foldl (fun s request => storage (handleFetch online_env request s)) ∅ photos)
     IMAGE_CACHE).*1
  = url <$> photos.
Proof. vm_compute. reflexivity. Qed.

(** Where the put lands before the trimming lists the keys, the first
    photograph is deleted and the last fifty are left, in order. *)
Example fifty_one_photographs_put_first :
  (partition
     (foldl (fun s request => storage (handleFetch put_first_env request s)) ∅ photos)
     IMAGE_CACHE).*1
  = url <$> (photo <$> seq 2 50).
Proof. vm_compute. reflexivity. Qed.

(** * Further properties *)

(** ** What a handler leaves alone *)

Section Respect.

Variable env : Env.
Variable name : string.
Variable R : relation Cache.
Context `{!PreOrder R}.

Local Abbreviation P := (partition_rel name R).

Lemma partition_rel_refl s : P s s.
Proof. unfold partition_rel. reflexivity. Qed.

Lemma partition_rel_trans s1 s2 s3 : P s1 s2 -> P s2 s3 -> P s1 s3.
Proof. unfold partition_rel. intros H12 H23. etransitivity; eassumption. Qed.

Lemma partition_rel_same s s' :
  partition s' name = partition s name -> P s s'.
Proof. unfold partition_rel. intros ->. reflexivity. Qed.

(** A task that leaves the storage as it is and starts no write. *)
Lemma quiet_respects {A} (t : Task A) :
  (forall s, storage (t s) = s
             /\ Forall (fun ev => forall s', land env s' ev = s') (events (t s))) ->
  respects env P t.
Proof.
  intros Hquiet s. destruct (Hquiet s) as [-> Hevs].
  split; [apply partition_rel_refl |].
  eapply Forall_impl; [exact Hevs |]. cbn beta. intros ev Hev s'. rewrite Hev.
  apply partition_rel_refl.
Qed.

Lemma ret_respects {A} (a : A) : respects env P (ret a).
Proof. apply quiet_respects. intros s. split; [reflexivity | constructor]. Qed.

Lemma fetch_respects request : respects env P (fetch env request).
Proof. apply quiet_respects. intros s. split; [reflexivity | repeat constructor]. Qed.

Lemma fetchWithTimeout_respects request timeout :
  respects env P (fetchWithTimeout env request timeout).
Proof. apply quiet_respects. intros s. split; [reflexivity | repeat constructor]. Qed.

Lemma console_error_respects message error :
  respects env P (console_error message error).
Proof. apply quiet_respects. intros s. split; [reflexivity | repeat constructor]. Qed.

Lemma bind_respects {A B} (t : Task A) (k : A -> Task B) :
  respects env P t -> (forall a, respects env P (k a)) -> respects env P (bind t k).
Proof.
  intros Ht Hk s. destruct (Ht s) as [Hs Hevs]. unfold bind.
  destruct (t s) as [[a | e] s' evs]; cbn [storage events] in *; [| auto].
  destruct (Hk a s') as [Hs' Hevs']. destruct (k a s') as [r s'' evs'].
  cbn [preceded_by storage events] in *. split.
  - eapply partition_rel_trans; eassumption.
  - apply Forall_app. auto.
Qed.

Lemma try_catch_respects {A} (t : Task A) (h : Error -> Task A) :
  respects env P t -> (forall e, respects env P (h e)) -> respects env P (try_catch t h).
Proof.
  intros Ht Hh s. destruct (Ht s) as [Hs Hevs]. unfold try_catch.
  destruct (t s) as [[a | e] s' evs]; cbn [storage events] in *; [auto |].
  destruct (Hh e s') as [Hs' Hevs']. destruct (h e s') as [r s'' evs'].
  cbn [preceded_by storage events] in *. split.
  - eapply partition_rel_trans; eassumption.
  - apply Forall_app. auto.
Qed.

Lemma Promise_all_respects {A} (ts : list (Task A)) :
  Forall (respects env P) ts -> respects env P (Promise_all ts).
Proof.
  induction 1 as [|t ts Ht _ IH]; intros s; cbn [Promise_all].
  - split; [apply partition_rel_refl | constructor].
  - destruct (Ht s) as [Hs Hevs]. destruct (t s) as [r s' evs].
    cbn [storage events] in Hs, Hevs.
    destruct (IH s') as [Hs' Hevs']. destruct (Promise_all ts s') as [rs s'' evs'].
    cbn [storage events] in *. split.
    + eapply partition_rel_trans; eassumption.
    + apply Forall_app. auto.
Qed.

(** The writes that were pending have landed. *)
Lemma settle_respects {A} (t : Task A) :
  respects env P t -> respects env P (settle env t).
Proof.
  intros Ht s. destruct (Ht s) as [Hs Hevs]. unfold settle.
  destruct (t s) as [r s' evs]. cbn [storage events] in *.
  split; [| exact Hevs].
  eapply partition_rel_trans; [exact Hs |]. clear Hs.
  revert s'. induction Hevs as [|ev evs Hev _ IH]; intros s'; cbn [foldl].
  - apply partition_rel_refl.
  - eapply partition_rel_trans; [apply Hev | apply IH].
Qed.

(** Opening a partition and going on with its handle. *)
Lemma open_respects {A} cacheName (k : string -> Task A) :
  respects env P (k cacheName) -> respects env P (bind (caches_open env cacheName) k).
Proof.
  intros Hk s. unfold bind, caches_open, cache_call.
  destruct (cache_fault env OpOpen cacheName); cbn [fst snd storage events].
  - split; [apply partition_rel_refl |].
    repeat constructor. intros s'. apply partition_rel_refl.
  - destruct (Hk (set_partition cacheName (partition s cacheName) s)) as [Hs Hevs].
    destruct (k cacheName _) as [r s' evs]. cbn [preceded_by storage events app] in *.
    split.
    + eapply partition_rel_trans; [| exact Hs].
      apply partition_rel_same, partition_opened.
    + constructor; [intros s''; apply partition_rel_refl | exact Hevs].
Qed.

Lemma cache_match_respects cache key : respects env P (cache_match env cache key).
Proof.
  apply quiet_respects. intros s. unfold cache_match, cache_call.
  destruct (cache_fault env OpMatch cache); split; try reflexivity; repeat constructor.
Qed.

Lemma cache_keys_respects cache : respects env P (cache_keys env cache).
Proof.
  apply quiet_respects. intros s. unfold cache_keys, cache_call.
  destruct (cache_fault env OpKeys cache); split; try reflexivity; repeat constructor.
Qed.

Lemma put_entry_respects cache key r s :
  (cache = name -> forall c, R c (cache_store key r c)) ->
  P s (put_entry env cache key r s).
Proof.
  intros Hstore. unfold put_entry.
  destruct (cache_fault env OpPut cache); [apply partition_rel_refl |].
  unfold partition_rel. destruct (decide (cache = name)) as [-> | Hne].
  - rewrite partition_set_eq. apply Hstore. reflexivity.
  - rewrite partition_set_ne by exact Hne. reflexivity.
Qed.

Lemma cache_put_respects cache key r :
  (cache = name -> forall c, R c (cache_store key r c)) ->
  respects env P (cache_put env cache key r).
Proof.
  intros Hstore s. unfold cache_put. cbn [storage events]. split.
  - destruct (put_lands_first env);
      [apply put_entry_respects, Hstore | apply partition_rel_refl].
  - repeat constructor. intros s'. cbn [land].
    destruct (put_lands_first env);
      [apply partition_rel_refl | apply put_entry_respects, Hstore].
Qed.

Lemma cache_delete_respects cache key :
  cache <> name -> respects env P (cache_delete env cache key).
Proof.
  intros Hne s. unfold cache_delete, cache_call.
  destruct (cache_fault env OpDelete cache); cbn [fst snd storage events];
    (split; [| repeat constructor; intros s'; apply partition_rel_refl]).
  - apply partition_rel_refl.
  - apply partition_rel_same, partition_set_ne, Hne.
Qed.

Lemma limitCacheSize_respects cacheName maxSize :
  cacheName <> name -> respects env P (limitCacheSize env cacheName maxSize).
Proof.
  intros Hne. unfold limitCacheSize. apply open_respects.
  apply bind_respects; [apply cache_keys_respects |]. intros keys.
  destruct (_ <? _)%nat; [| apply ret_respects].
  apply bind_respects; [| intros; apply ret_respects].
  apply Promise_all_respects, Forall_fmap, Forall_forall.
  intros key _. apply cache_delete_respects, Hne.
Qed.

Lemma getPlaceholderImage_respects : respects env P (getPlaceholderImage env).
Proof.
  unfold getPlaceholderImage. apply open_respects.
  apply bind_respects; [apply cache_match_respects |].
  intros [r |]; apply ret_respects.
Qed.

Lemma getOfflinePage_respects : respects env P (getOfflinePage env).
Proof.
  unfold getOfflinePage. apply open_respects.
  apply bind_respects; [apply cache_match_respects |].
  intros [r |]; apply ret_respects.
Qed.

Lemma handleOfflineFallback_respects request :
  respects env P (handleOfflineFallback env request).
Proof.
  unfold handleOfflineFallback.
  destruct (isImage _); [apply getPlaceholderImage_respects |].
  destruct (isHTMLPage _); [apply getOfflinePage_respects | apply ret_respects].
Qed.

Lemma updateCacheInBackground_respects request cache :
  (cache = name -> forall r c, R c (cache_store (url request) r c)) ->
  respects env P (updateCacheInBackground env request cache).
Proof.
  intros Hstore. unfold updateCacheInBackground.
  apply try_catch_respects; [| intros; apply ret_respects].
  apply bind_respects; [apply fetch_respects |]. intros r.
  destruct (ok r); [| apply ret_respects].
  apply cache_put_respects. intros Heq c. apply Hstore, Heq.
Qed.

Lemma handleStaticAsset_respects request :
  (STATIC_CACHE = name -> forall r c, R c (cache_store (url request) r c)) ->
  respects env P (handleStaticAsset env request).
Proof.
  intros Hstore. unfold handleStaticAsset. apply settle_respects, open_respects.
  apply bind_respects; [apply cache_match_respects |]. intros [cached |].
  - apply bind_respects; [| intros; apply ret_respects].
    apply updateCacheInBackground_respects, Hstore.
  - apply bind_respects; [apply fetch_respects |]. intros r.
    apply bind_respects; [| intros; apply ret_respects].
    destruct (ok r); [| apply ret_respects].
    apply cache_put_respects. intros Heq c. apply Hstore, Heq.
Qed.

Lemma handleImage_respects request :
  IMAGE_CACHE <> name -> respects env P (handleImage env request).
Proof.
  intros Hne. unfold handleImage. apply settle_respects, open_respects.
  apply bind_respects; [apply cache_match_respects |]. intros [cached |];
    [apply ret_respects |].
  apply try_catch_respects; [| intros; apply getPlaceholderImage_respects].
  apply bind_respects; [apply fetchWithTimeout_respects |]. intros r.
  apply bind_respects; [| intros; apply ret_respects].
  destruct (ok r); [| apply ret_respects].
  apply bind_respects; [apply cache_put_respects; intros Heq; contradiction |].
  intros _. apply limitCacheSize_respects, Hne.
Qed.

Lemma handleHTMLPage_respects request :
  (DYNAMIC_CACHE = name -> forall r c, R c (cache_store (url request) r c)) ->
  respects env P (handleHTMLPage env request).
Proof.
  intros Hstore. unfold handleHTMLPage. apply settle_respects, open_respects.
  apply try_catch_respects.
  - apply bind_respects; [apply fetchWithTimeout_respects |]. intros r.
    apply bind_respects; [| intros; apply ret_respects].
    destruct (ok r); [| apply ret_respects].
    apply cache_put_respects. intros Heq c. apply Hstore, Heq.
  - intros _. apply bind_respects; [apply cache_match_respects |].
    intros [cached |]; [apply ret_respects | apply getOfflinePage_respects].
Qed.

Lemma handleDynamic_respects request :
  DYNAMIC_CACHE <> name -> respects env P (handleDynamic env request).
Proof.
  intros Hne. unfold handleDynamic. apply settle_respects, open_respects.
  apply try_catch_respects.
  - apply bind_respects; [apply fetchWithTimeout_respects |]. intros r.
    apply bind_respects; [| intros; apply ret_respects].
    destruct (ok r); [| apply ret_respects].
    apply bind_respects; [apply cache_put_respects; intros Heq; contradiction |].
    intros _. apply limitCacheSize_respects, Hne.
  - intros _. apply bind_respects; [apply cache_match_respects |].
    intros [cached |]; apply ret_respects.
Qed.

(** The router: the strategy of the path, then the fallback when the
    strategy threw. *)
Lemma handleFetch_respects request :
  respects env P (strategy_handler env (route (pathname (url request))) request) ->
  respects env P (handleFetch env request).
Proof.
  intros Hstrategy. rewrite handleFetch_route.
  apply try_catch_respects; [exact Hstrategy |]. intros e.
  apply bind_respects; [apply console_error_respects |].
  intros _. apply handleOfflineFallback_respects.
Qed.

End Respect.

#[local] Instance entry_kept_or_own_preorder own key : PreOrder (entry_kept_or_own own key).
Proof.
  split.
  - intros c. left. reflexivity.
  - intros c1 c2 c3 [H12 | [Hown H12]] [H23 | H23].
    + left. congruence.
    + right. exact H23.
    + right. split; [exact Hown |]. rewrite H23. exact H12.
    + right. exact H23.
Qed.

Lemma cache_store_kept_or_own own key r c :
  entry_kept_or_own own key c (cache_store own r c).
Proof.
  destruct (decide (key = own)) as [-> | Hne].
  - right. split; [reflexivity |]. rewrite cache_find_store_eq. eauto.
  - left. apply cache_find_store_ne, Hne.
Qed.

(** X1. A request changes the content of one partition at most, the one
    of its strategy: static for a static asset, images for an image,
    dynamic for an HTML page or a generic resource. This holds whatever the
    network answers and whichever cache operations fail. *)
Theorem X1_request_touches_own_partition env request s name :
  name <> strategy_partition (route (pathname (url request))) ->
  partition (storage (handleFetch env request s)) name = partition s name.
Proof.
  intros Hother. symmetry.
  apply (handleFetch_respects env name eq request).
  destruct (route (pathname (url request))); cbn [strategy_handler strategy_partition] in *.
  - apply handleStaticAsset_respects; [apply _ |]. intros Heq. congruence.
  - apply handleImage_respects; [apply _ |]. congruence.
  - apply handleHTMLPage_respects; [apply _ |]. intros Heq. congruence.
  - apply handleDynamic_respects; [apply _ |]. congruence.
Qed.

Lemma X1_witness :
  cache_find (url_of_path offline_env "/") (partition installed STATIC_CACHE)
  = Some (served (sample_request "/"))
  /\ partition (storage (handleFetch online_env (photo 1) installed)) STATIC_CACHE
     = partition installed STATIC_CACHE.
Proof.
  split; [vm_compute; reflexivity |].
  apply X1_request_touches_own_partition. vm_compute. discriminate.
Defined.

(** X2. No request takes an entry out of the static partition: after
    any request every key has the entry it had, except the key of the
    request itself, which then has an entry (the refreshed or newly stored
    response). *)
Theorem X2_static_entries_stay env request s key :
  cache_find key (partition (storage (handleFetch env request s)) STATIC_CACHE)
  = cache_find key (partition s STATIC_CACHE)
  \/ (key = url request
      /\ is_Some (cache_find key
                    (partition (storage (handleFetch env request s)) STATIC_CACHE))).
Proof.
  apply (handleFetch_respects env STATIC_CACHE (entry_kept_or_own (url request) key)).
  destruct (route (pathname (url request))); cbn [strategy_handler].
  - apply handleStaticAsset_respects; [apply _ |].
    intros _ r c. apply cache_store_kept_or_own.
  - apply handleImage_respects; [apply _ | discriminate].
  - apply handleHTMLPage_respects; [apply _ | discriminate].
  - apply handleDynamic_respects; [apply _ | discriminate].
Qed.
#[local] Instance entry_kept_preorder key : PreOrder (entry_kept key).
Proof.
  split.
  - intros c. reflexivity.
  - intros c1 c2 c3 H12 H23. unfold entry_kept in *. congruence.
Qed.

(** What [handleFetch] does after its strategy changes no partition. *)
Lemma handleFetch_partition env request s name :
  partition (storage (handleFetch env request s)) name
  = partition (storage (strategy_handler env (route (pathname (url request))) request s))
      name.
Proof.
  rewrite handleFetch_route. unfold try_catch.
  destruct (strategy_handler env _ request s) as [[r | e] s' evs]; [reflexivity |].
  cbn [storage].
  pose proof (proj1 (bind_respects env name eq
                       (console_error "Service Worker: Fetch error" e)
                       (fun _ => handleOfflineFallback env request)
                       (console_error_respects env name eq _ _)
                       (fun _ => handleOfflineFallback_respects env name eq request) s'))
    as Hsame.
  unfold partition_rel in Hsame. cbn beta in Hsame.
  destruct (bind _ _ s') as [r s'' evs']. cbn [preceded_by storage] in *.
  symmetry. exact Hsame.
Qed.

(** The static entry of a path that is not a static asset is never
    touched by a request. *)
Lemma static_entry_of_other_paths env request s key :
  isStaticAsset (pathname key) = false ->
  cache_find key (partition (storage (handleFetch env request s)) STATIC_CACHE)
  = cache_find key (partition s STATIC_CACHE).
Proof.
  intros Hkey.
  apply (handleFetch_respects env STATIC_CACHE (entry_kept key)).
  unfold route. destruct (isStaticAsset (pathname (url request))) eqn:Hs.
  - apply handleStaticAsset_respects; [apply _ |]. intros _ r c.
    apply cache_find_store_ne. intros ->. congruence.
  - destruct (isImage _); [apply handleImage_respects; [apply _ | discriminate] |].
    destruct (isHTMLPage _).
    + apply handleHTMLPage_respects; [apply _ | discriminate].
    + apply handleDynamic_respects; [apply _ | discriminate].
Qed.

Lemma serve_keeps_other_paths history s key :
  isStaticAsset (pathname key) = false ->
  cache_find key (partition (serve history s) STATIC_CACHE)
  = cache_find key (partition s STATIC_CACHE).
Proof.
  intros Hkey. revert s. unfold serve.
  induction history as [|[env request] history IH]; intros s; [reflexivity |].
  cbn [foldl fst snd]. rewrite IH. apply static_entry_of_other_paths, Hkey.
Qed.

(** X3. Once the static bulk write of an install went through, the
    offline page is the home page cached at install time, whatever requests
    were handled since, whatever the network answered to them and whichever
    cache operations failed meanwhile. *)
Theorem X3_offline_page_survives_requests env env' history s :
  location_origin env' = location_origin env ->
  readable env' STATIC_CACHE ->
  result (precacheStatic env s) = Fulfilled tt ->
  exists home,
    settled (network env (GET (url_of_path env "/"))) = Resolves home
    /\ result (getOfflinePage env' (serve history (storage (onInstall env s))))
       = Fulfilled home.
Proof.
  intros Horigin Hread Hdone.
  destruct (root_cached_by_install env s Hdone) as (home & Hnet & Hroot).
  exists home. split; [exact Hnet |].
  rewrite getOfflinePage_run by exact Hread. cbn [result].
  unfold url_of_path in Hroot |- *. rewrite Horigin.
  rewrite serve_keeps_other_paths by reflexivity.
  rewrite Hroot. reflexivity.
Qed.

Lemma X3_witness :
  result (precacheStatic online_env ∅) = Fulfilled tt
  /\ exists home,
       settled (network online_env (GET (url_of_path online_env "/"))) = Resolves home
       /\ result (getOfflinePage offline_env (serve sample_session installed))
          = Fulfilled home.
Proof.
  assert (result (precacheStatic online_env ∅) = Fulfilled tt) as Hdone
    by (vm_compute; reflexivity).
  split; [exact Hdone |].
  exact (X3_offline_page_survives_requests online_env offline_env sample_session ∅
           eq_refl (conj eq_refl eq_refl) Hdone).
Defined.
(** ** Static assets, served from the cache *)

(** The background refresh never throws; it writes the answer of the
    network when that answer is [ok], and nothing otherwise. *)
Lemma updateCacheInBackground_run env request cache s :
  updateCacheInBackground env request cache s =
  {| result := Fulfilled tt;
     storage := match settled (network env request) with
                | Resolves r => if ok r then storage (cache_put env cache (url request) r s)
                                else s
                | Rejects => s
                end;
     events := EvFetch request ::
               match settled (network env request) with
               | Resolves r => if ok r then [EvCachePut cache (url request) r] else []
               | Rejects => []
               end |}.
Proof.
  unfold updateCacheInBackground, fetch, cache_put. task_simpl.
  destruct (settled (network env request)) as [r |]; task_simpl; [| reflexivity].
  destruct (ok r); reflexivity.
Qed.

(** X4. A static asset that is in the static partition is answered from
    it, whatever the network does. The network is asked once, with no timer,
    and its answer replaces the entry when it is [ok]; a network failure or
    another status leaves the entry as it is and is reported nowhere. *)
Theorem X4_static_asset_hit env request s cached :
  isStaticAsset (pathname (url request)) = true ->
  readable env STATIC_CACHE ->
  cache_fault env OpPut STATIC_CACHE = false ->
  cache_find (url request) (partition s STATIC_CACHE) = Some cached ->
  result (handleFetch env request s) = Fulfilled cached
  /\ events (handleFetch env request s) =
     [EvCacheOpen STATIC_CACHE; EvCacheMatch STATIC_CACHE (url request);
      EvFetch request]
     ++ match settled (network env request) with
        | Resolves r => if ok r then [EvCachePut STATIC_CACHE (url request) r] else []
        | Rejects => []
        end
  /\ cache_find (url request)
       (partition (storage (handleFetch env request s)) STATIC_CACHE)
     = Some match settled (network env request) with
            | Resolves r => if ok r then r else cached
            | Rejects => cached
            end.
Proof.
  intros Hs [Hopen Hmatch] Hput Hhit.
  unfold handleFetch. rewrite Hs. unfold handleStaticAsset.
  unfold caches_open, cache_match, cache_call.
  rewrite Hopen. task_simpl. rewrite Hmatch. task_simpl.
  rewrite partition_opened, Hhit. task_simpl.
  rewrite updateCacheInBackground_run.
  destruct (settled (network env request)) as [r |]; [destruct (ok r) |]; task_simpl;
    (split; [reflexivity |]); (split; [reflexivity |]).
  - unfold cache_put, put_entry. cbn [storage]. rewrite Hput.
    destruct (put_lands_first env); rewrite partition_set_eq;
      apply cache_find_store_eq.
  - rewrite partition_opened. exact Hhit.
  - rewrite partition_opened. exact Hhit.
Qed.

Lemma X4_witness :
  result (handleFetch offline_env (sample_request "/styles/main.css") installed)
  = Fulfilled (served (sample_request "/styles/main.css"))
  /\ events (handleFetch offline_env (sample_request "/styles/main.css") installed) =
     [EvCacheOpen STATIC_CACHE;
      EvCacheMatch STATIC_CACHE (url (sample_request "/styles/main.css"));
      EvFetch (sample_request "/styles/main.css")].
Proof.
  pose proof (X4_static_asset_hit offline_env (sample_request "/styles/main.css")
                installed (served (sample_request "/styles/main.css"))
                eq_refl (conj eq_refl eq_refl) eq_refl) as H.
  destruct H as (Hres & Hevs & _); [vm_compute; reflexivity |].
  split; [exact Hres | exact Hevs].
Defined.

(** An [ok] answer of the network ends up in the static partition,
    whether the asset was cached before or not. *)
Lemma static_asset_stored env request s r :
  isStaticAsset (pathname (url request)) = true ->
  readable env STATIC_CACHE ->
  cache_fault env OpPut STATIC_CACHE = false ->
  settled (network env request) = Resolves r ->
  ok r = true ->
  cache_find (url request)
    (partition (storage (handleFetch env request s)) STATIC_CACHE) = Some r.
Proof.
  intros Hs [Hopen Hmatch] Hput Hnet Hok.
  rewrite handleFetch_partition. unfold route. rewrite Hs. cbn [strategy_handler].
  unfold handleStaticAsset. unfold caches_open, cache_match, cache_call.
  rewrite Hopen. task_simpl. rewrite Hmatch. task_simpl.
  rewrite partition_opened.
  destruct (cache_find (url request) (partition s STATIC_CACHE)) as [cached |];
    task_simpl.
  - rewrite updateCacheInBackground_run, Hnet, Hok. unfold cache_put.
    task_simpl. unfold put_entry. rewrite Hput.
    destruct (put_lands_first env); rewrite partition_set_eq;
      apply cache_find_store_eq.
  - unfold fetch, cache_put. rewrite Hnet. task_simpl. rewrite Hok.
    task_simpl. unfold put_entry. rewrite Hput.
    destruct (put_lands_first env); rewrite partition_set_eq;
      apply cache_find_store_eq.
Qed.

(** X5. A static asset that the network answers with an [ok] response
    is in the static partition afterwards, whether it was there before or
    not, and the next request for it is answered with that response from the
    cache, whatever the network does by then. *)
Theorem X5_static_asset_round_trip env env' request s r :
  isStaticAsset (pathname (url request)) = true ->
  readable env STATIC_CACHE ->
  cache_fault env OpPut STATIC_CACHE = false ->
  readable env' STATIC_CACHE ->
  settled (network env request) = Resolves r ->
  ok r = true ->
  cache_find (url request)
    (partition (storage (handleFetch env request s)) STATIC_CACHE) = Some r
  /\ result (handleFetch env' request (storage (handleFetch env request s)))
     = Fulfilled r.
Proof.
  intros Hs Hread Hput [Hopen' Hmatch'] Hnet Hok.
  pose proof (static_asset_stored env request s r Hs Hread Hput Hnet Hok) as Hstored.
  split; [exact Hstored |].
  revert Hstored. generalize (storage (handleFetch env request s)). intros s1 Hstored.
  unfold handleFetch. rewrite Hs. unfold handleStaticAsset.
  unfold caches_open, cache_match, cache_call.
  rewrite Hopen'. task_simpl. rewrite Hmatch'. task_simpl.
  rewrite partition_opened, Hstored. task_simpl.
  rewrite updateCacheInBackground_run. reflexivity.
Qed.

Lemma X5_witness :
  cache_find (url (sample_request "/scripts/gallery.js")) (partition ∅ STATIC_CACHE) = None
  /\ result (handleFetch offline_env (sample_request "/scripts/gallery.js")
               (storage (handleFetch online_env (sample_request "/scripts/gallery.js") ∅)))
     = Fulfilled (served (sample_request "/scripts/gallery.js")).
Proof.
  split; [vm_compute; reflexivity |].
  apply (X5_static_asset_round_trip online_env offline_env
           (sample_request "/scripts/gallery.js") ∅
           (served (sample_request "/scripts/gallery.js")));
    first [reflexivity | split; reflexivity].
Defined.
(** ** Images *)

(** X6. An image that is in the images partition is answered from it
    with no network request at all, and nothing is written. *)
Theorem X6_image_hit env request s cached :
  isStaticAsset (pathname (url request)) = false ->
  isImage (pathname (url request)) = true ->
  readable env IMAGE_CACHE ->
  cache_find (url request) (partition s IMAGE_CACHE) = Some cached ->
  result (handleFetch env request s) = Fulfilled cached
  /\ events (handleFetch env request s) =
     [EvCacheOpen IMAGE_CACHE; EvCacheMatch IMAGE_CACHE (url request)]
  /\ forall name,
       partition (storage (handleFetch env request s)) name = partition s name.
Proof.
  intros Hs Hi [Hopen Hmatch] Hhit.
  unfold handleFetch. rewrite Hs, Hi. unfold handleImage.
  unfold caches_open, cache_match, cache_call.
  rewrite Hopen. task_simpl. rewrite Hmatch. task_simpl.
  rewrite partition_opened, Hhit. task_simpl.
  split; [reflexivity |]. split; [reflexivity |].
  intros name. apply partition_opened.
Qed.

Lemma X6_witness :
  result (handleFetch offline_env
            (sample_request "/assets/images/project-1-medium.jpg") installed)
  = Fulfilled (served (sample_request "/assets/images/project-1-medium.jpg"))
  /\ events (handleFetch offline_env
               (sample_request "/assets/images/project-1-medium.jpg") installed) =
     [EvCacheOpen IMAGE_CACHE;
      EvCacheMatch IMAGE_CACHE (url (sample_request "/assets/images/project-1-medium.jpg"))].
Proof.
  pose proof (X6_image_hit offline_env
                (sample_request "/assets/images/project-1-medium.jpg") installed
                (served (sample_request "/assets/images/project-1-medium.jpg"))
                eq_refl eq_refl (conj eq_refl eq_refl)) as H.
  destruct H as (Hres & Hevs & _); [vm_compute; reflexivity |].
  split; [exact Hres | exact Hevs].
Defined.

(** X7. An image that is not cached and whose network attempt fails or
    times out is answered with the placeholder: the entry of the placeholder
    path in the images partition when there is one, and otherwise the
    synthesized SVG, which has status 200, content type image/svg+xml and a
    one-day max-age. Nothing is written and no error is logged. *)
Theorem X7_image_placeholder env request s :
  isStaticAsset (pathname (url request)) = false ->
  isImage (pathname (url request)) = true ->
  readable env IMAGE_CACHE ->
  cache_find (url request) (partition s IMAGE_CACHE) = None ->
  network_fails env request NETWORK_TIMEOUT ->
  result (handleFetch env request s) =
  Fulfilled
    match cache_find (url_of_path env "/assets/images/placeholder.jpg")
            (partition s IMAGE_CACHE) with
    | Some placeholder => placeholder
    | None => SYNTHESIZED_PLACEHOLDER
    end
  /\ events (handleFetch env request s) =
     [EvCacheOpen IMAGE_CACHE; EvCacheMatch IMAGE_CACHE (url request);
      EvFetch request; EvSetTimeout NETWORK_TIMEOUT;
      EvCacheOpen IMAGE_CACHE;
      EvCacheMatch IMAGE_CACHE (url_of_path env "/assets/images/placeholder.jpg")]
  /\ (forall name,
        partition (storage (handleFetch env request s)) name = partition s name)
  /\ status SYNTHESIZED_PLACEHOLDER = 200
  /\ headers SYNTHESIZED_PLACEHOLDER =
     [("Content-Type", "image/svg+xml"); ("Cache-Control", "max-age=86400")]
  /\ includes (body SYNTHESIZED_PLACEHOLDER) "Image unavailable" = true.
Proof.
  intros Hs Hi Hread Hmiss Hnet. pose proof Hread as [Hopen Hmatch].
  unfold handleFetch. rewrite Hs, Hi. unfold handleImage.
  unfold caches_open, cache_match, cache_call.
  rewrite Hopen. task_simpl. rewrite Hmatch. task_simpl.
  rewrite partition_opened, Hmiss. task_simpl.
  destruct (fetchWithTimeout_fails env request NETWORK_TIMEOUT
              (set_partition IMAGE_CACHE (partition s IMAGE_CACHE) s) Hnet)
    as [e ->].
  task_simpl. rewrite getPlaceholderImage_run by exact Hread. task_simpl.
  split; [rewrite partition_opened; destruct (cache_find _ _); reflexivity |].
  split; [reflexivity |].
  split; [intros name; rewrite !partition_opened; reflexivity |].
  repeat split.
Qed.

Lemma X7_witness :
  result (handleFetch offline_env (photo 1) ∅) = Fulfilled SYNTHESIZED_PLACEHOLDER
  /\ status SYNTHESIZED_PLACEHOLDER = 200
  /\ headers SYNTHESIZED_PLACEHOLDER =
     [("Content-Type", "image/svg+xml"); ("Cache-Control", "max-age=86400")].
Proof.
  pose proof (X7_image_placeholder offline_env (photo 1) ∅
                eq_refl eq_refl (conj eq_refl eq_refl)) as H.
  destruct H as (Hres & _ & _ & Hstatus & Hheaders & _);
    [vm_compute; reflexivity | left; reflexivity |].
  split; [exact Hres |]. split; [exact Hstatus | exact Hheaders].
Defined.

Section NewestEntry.

Variable env : Env.

Lemma cache_find_absent key c : key ∉ c.*1 -> cache_find key c = None.
Proof.
  induction c as [|[k r] c IH]; [reflexivity |].
  rewrite fmap_cons, not_elem_of_cons. cbn [fst cache_find]. intros [Hne Hrest].
  rewrite decide_False by congruence. exact (IH Hrest).
Qed.

(** With a bound of one entry or more, the entry just written survives
    the trimming. *)
Lemma bounded_write_keeps_new name maxSize key r s :
  usable env name ->
  NoDup (partition s name).*1 ->
  0 < maxSize ->
  cache_find key (partition (storage (bounded_write env name maxSize key r s)) name)
  = Some r.
Proof.
  intros Husable Hnodup Hpositive.
  destruct (bounded_write_settles env name maxSize Husable key r s)
    as (s' & -> & Hthis & _).
  cbn [storage]. rewrite Hthis. clear Hthis.
  destruct (put_lands_first env); [| apply cache_find_store_eq].
  rewrite remove_oldest by (apply cache_store_NoDup, Hnodup).
  unfold cache_store. rewrite drop_app_le by (rewrite length_app; cbn; lia).
  rewrite cache_find_app, cache_find_absent.
  - cbn [cache_find]. rewrite decide_True by reflexivity. reflexivity.
  - intros Hin. apply (cache_remove_gone key (partition s name)).
    eapply elem_of_sublist; [exact Hin |].
    rewrite fmap_drop. apply sublist_drop.
Qed.

End NewestEntry.

(** X8. An image that is not cached and that the network serves in time
    with an [ok] status is the answer, and it is in the images partition
    afterwards: the next request for it is answered with the same response
    from the cache, with no network request. *)
Theorem X8_image_round_trip env env' request s r :
  isStaticAsset (pathname (url request)) = false ->
  isImage (pathname (url request)) = true ->
  usable env IMAGE_CACHE ->
  readable env' IMAGE_CACHE ->
  NoDup (partition s IMAGE_CACHE).*1 ->
  cache_find (url request) (partition s IMAGE_CACHE) = None ->
  settled (network env request) = Resolves r ->
  latency (network env request) < NETWORK_TIMEOUT ->
  ok r = true ->
  result (handleFetch env request s) = Fulfilled r
  /\ result (handleFetch env' request (storage (handleFetch env request s)))
     = Fulfilled r
  /\ events (handleFetch env' request (storage (handleFetch env request s))) =
     [EvCacheOpen IMAGE_CACHE; EvCacheMatch IMAGE_CACHE (url request)].
Proof.
  intros Hs Hi Husable [Hopen' Hmatch'] Hnodup Hmiss Hnet Hfast Hok.
  destruct (handleImage_miss_ok env request s r Husable Hmiss Hnet Hfast Hok)
    as [Hres Hsto].
  assert (handleFetch env request s = handleImage env request s) as ->.
  { unfold handleFetch, try_catch. rewrite Hs, Hi.
    destruct (handleImage env request s) as [res s1 evs].
    cbn [result] in Hres. rewrite Hres. reflexivity. }
  split; [exact Hres |].
  assert (cache_find (url request)
            (partition (storage (handleImage env request s)) IMAGE_CACHE) = Some r)
    as Hstored.
  { rewrite Hsto. apply bounded_write_keeps_new.
    - exact Husable.
    - rewrite partition_opened. exact Hnodup.
    - unfold MAX_IMAGE_CACHE_SIZE. lia. }
  revert Hstored. generalize (storage (handleImage env request s)). intros s1 Hstored.
  unfold handleFetch. rewrite Hs, Hi. unfold handleImage.
  unfold caches_open, cache_match, cache_call.
  rewrite Hopen'. task_simpl. rewrite Hmatch'. task_simpl.
  rewrite partition_opened, Hstored. task_simpl. split; reflexivity.
Qed.

Lemma X8_witness :
  result (handleFetch online_env (photo 7) installed) = Fulfilled (served (photo 7))
  /\ result (handleFetch offline_env (photo 7)
               (storage (handleFetch online_env (photo 7) installed)))
     = Fulfilled (served (photo 7)).
Proof.
  assert (usable online_env IMAGE_CACHE) as Husable by (intros op; reflexivity).
  assert (NoDup (partition installed IMAGE_CACHE).*1) as Hnodup
    by (apply (bool_decide_unpack _); vm_compute; exact I).
  assert (cache_find (url (photo 7)) (partition installed IMAGE_CACHE) = None) as Hmiss
    by (vm_compute; reflexivity).
  assert (latency (network online_env (photo 7)) < NETWORK_TIMEOUT) as Hfast
    by (vm_compute; lia).
  destruct (X8_image_round_trip online_env offline_env (photo 7) installed
              (served (photo 7)) eq_refl eq_refl Husable (conj eq_refl eq_refl)
              Hnodup Hmiss eq_refl Hfast eq_refl) as (Hfirst & Hsecond & _).
  split; [exact Hfirst | exact Hsecond].
Defined.
(** ** Network first *)

(** X9. For an HTML page or a generic resource, a response that arrives
    before the timer is the answer also when its status is not [ok]: the
    cache is not looked up, even if it holds a copy, and nothing is
    written. *)
Theorem X9_network_first_passes_errors_through env request s r :
  isStaticAsset (pathname (url request)) = false ->
  isImage (pathname (url request)) = false ->
  cache_fault env OpOpen DYNAMIC_CACHE = false ->
  settled (network env request) = Resolves r ->
  latency (network env request) < NETWORK_TIMEOUT ->
  ok r = false ->
  result (handleFetch env request s) = Fulfilled r
  /\ events (handleFetch env request s) =
     [EvCacheOpen DYNAMIC_CACHE; EvFetch request; EvSetTimeout NETWORK_TIMEOUT]
  /\ forall name,
       partition (storage (handleFetch env request s)) name = partition s name.
Proof.
  intros Hs Hi Hopen Hnet Hfast Hok.
  unfold handleFetch. rewrite Hs, Hi.
  destruct (isHTMLPage (pathname (url request)));
    [unfold handleHTMLPage | unfold handleDynamic];
    unfold caches_open, cache_call; rewrite Hopen; task_simpl;
    rewrite (fetchWithTimeout_resolves env request NETWORK_TIMEOUT r _ Hnet Hfast);
    task_simpl; rewrite Hok; task_simpl;
    (split; [reflexivity |]); (split; [reflexivity |]);
    intros name; apply partition_opened.
Qed.

Lemma X9_witness :
  cache_find (url (sample_request "/about")) (partition visited DYNAMIC_CACHE)
  = Some (served (sample_request "/about"))
  /\ result (handleFetch server_error_env (sample_request "/about") visited)
     = Fulfilled SERVER_ERROR.
Proof.
  split; [vm_compute; reflexivity |].
  assert (latency (network server_error_env (sample_request "/about")) < NETWORK_TIMEOUT)
    as Hfast by (vm_compute; lia).
  exact (proj1 (X9_network_first_passes_errors_through server_error_env
                  (sample_request "/about") visited SERVER_ERROR
                  eq_refl eq_refl eq_refl eq_refl Hfast eq_refl)).
Defined.


(** An HTML page or a generic resource whose network attempt fails or
    times out is answered with its entry in the dynamic partition. *)
Lemma network_first_falls_back env request s cached :
  isStaticAsset (pathname (url request)) = false ->
  isImage (pathname (url request)) = false ->
  readable env DYNAMIC_CACHE ->
  network_fails env request NETWORK_TIMEOUT ->
  cache_find (url request) (partition s DYNAMIC_CACHE) = Some cached ->
  handleFetch env request s =
  {| result := Fulfilled cached;
     storage := set_partition DYNAMIC_CACHE (partition s DYNAMIC_CACHE) s;
     events := [EvCacheOpen DYNAMIC_CACHE; EvFetch request;
                EvSetTimeout NETWORK_TIMEOUT;
                EvCacheMatch DYNAMIC_CACHE (url request)] |}.
Proof.
  intros Hs Hi [Hopen Hmatch] Hnet Hhit.
  unfold handleFetch. rewrite Hs, Hi.
  destruct (isHTMLPage (pathname (url request)));
    [unfold handleHTMLPage | unfold handleDynamic];
    unfold caches_open, cache_match, cache_call; rewrite Hopen; task_simpl;
    destruct (fetchWithTimeout_fails env request NETWORK_TIMEOUT
                (set_partition DYNAMIC_CACHE (partition s DYNAMIC_CACHE) s) Hnet)
      as [e ->];
    task_simpl; rewrite Hmatch; task_simpl; rewrite partition_opened, Hhit;
    reflexivity.
Qed.



(** X11. A generic resource (or an HTML page) whose network attempt
    fails or times out and that has an entry in the dynamic partition is
    answered with that entry, after the one network attempt; nothing is
    written and no error is logged. *)
Theorem X11_network_first_cached_fallback env request s cached :
  isStaticAsset (pathname (url request)) = false ->
  isImage (pathname (url request)) = false ->
  readable env DYNAMIC_CACHE ->
  network_fails env request NETWORK_TIMEOUT ->
  cache_find (url request) (partition s DYNAMIC_CACHE) = Some cached ->
  result (handleFetch env request s) = Fulfilled cached
  /\ events (handleFetch env request s) =
     [EvCacheOpen DYNAMIC_CACHE; EvFetch request; EvSetTimeout NETWORK_TIMEOUT;
      EvCacheMatch DYNAMIC_CACHE (url request)]
  /\ forall name,
       partition (storage (handleFetch env request s)) name = partition s name.
Proof.
  intros Hs Hi Hread Hnet Hhit.
  rewrite (network_first_falls_back env request s cached Hs Hi Hread Hnet Hhit).
  cbn [result events storage]. split; [reflexivity |]. split; [reflexivity |].
  intros name. apply partition_opened.
Qed.

Lemma X11_witness :
  result (handleFetch offline_env (api_item 1) visited) = Fulfilled (served (api_item 1)).
Proof.
  refine (proj1 (X11_network_first_cached_fallback offline_env (api_item 1) visited
                   (served (api_item 1)) eq_refl eq_refl
                   (conj eq_refl eq_refl) (or_introl eq_refl) _)).
  vm_compute. reflexivity.
Defined.
(** ** The bounds, request by request *)








(** X15. The request of an HTML page evicts nothing: afterwards every
    key of the dynamic partition has the entry it had, except the key of the
    request itself, which then has an entry. *)
Theorem X15_html_page_evicts_nothing env request s key :
  route (pathname (url request)) = HTMLPage ->
  cache_find key (partition (storage (handleFetch env request s)) DYNAMIC_CACHE)
  = cache_find key (partition s DYNAMIC_CACHE)
  \/ (key = url request
      /\ is_Some (cache_find key
                    (partition (storage (handleFetch env request s)) DYNAMIC_CACHE))).
Proof.
  intros Hroute.
  apply (handleFetch_respects env DYNAMIC_CACHE (entry_kept_or_own (url request) key)).
  rewrite Hroute. cbn [strategy_handler].
  apply handleHTMLPage_respects; [apply _ |].
  intros _ r c. apply cache_store_kept_or_own.
Qed.

Lemma X15_witness :
  cache_find (url (api_item 1)) (partition dynamic_full DYNAMIC_CACHE)
  = Some (served (api_item 1))
  /\ cache_find (url (api_item 1))
       (partition (storage (handleFetch online_env (sample_request "/about") dynamic_full))
          DYNAMIC_CACHE)
     = Some (served (api_item 1)).
Proof.
  assert (cache_find (url (api_item 1)) (partition dynamic_full DYNAMIC_CACHE)
          = Some (served (api_item 1))) as Hbefore by (vm_compute; reflexivity).
  split; [exact Hbefore |].
  destruct (X15_html_page_evicts_nothing online_env (sample_request "/about")
              dynamic_full (url (api_item 1)) eq_refl) as [Hkept | [Hown _]].
  - rewrite Hkept. exact Hbefore.
  - vm_compute in Hown. discriminate Hown.
Defined.
(** ** What an install leaves in the caches *)

Section PrecacheFacts.

Variable env : Env.

#[local] Instance url_of_path_inj : Inj eq eq (url_of_path env).
Proof. intros p q Heq. injection Heq as Heq. exact Heq. Qed.

(** Entries with distinct keys, written in one go, are all there. *)
Lemma cache_find_stored_all entries c key r :
  NoDup entries.*1 ->
  (key, r) ∈ entries ->
  cache_find key (foldl (fun c e => cache_store e.1 e.2 c) c entries) = Some r.
Proof.
  revert c. induction entries as [|[k r'] entries IH]; intros c Hnodup Hin.
  - inversion Hin.
  - rewrite fmap_cons in Hnodup. apply NoDup_cons in Hnodup as [Hfresh Hnodup].
    apply elem_of_cons in Hin as [[= -> ->] | Hin].
    + apply cache_find_stored_first, Hfresh.
    + cbn [foldl fst snd]. apply IH; assumption.
Qed.

(** A bulk write that fulfilled has stored every path it was given, with
    the [ok] answer of the network. *)
Lemma bulk_write_stores name paths s path :
  NoDup paths ->
  result ((cache <- caches_open env name ;; cache_addAll env cache paths) s)
  = Fulfilled tt ->
  path ∈ paths ->
  exists r,
    settled (network env (GET (url_of_path env path))) = Resolves r
    /\ ok r = true
    /\ cache_find (url_of_path env path)
         (partition (storage ((cache <- caches_open env name ;;
                               cache_addAll env cache paths) s)) name)
       = Some r.
Proof.
  intros Hnodup Hdone Hpath.
  assert (bulk_write_succeeds env name paths = true) as Hsucceeds
    by (apply (bulk_write_result env name paths s); eauto).
  destruct (bulk_write_run env name paths s) as (_ & _ & H).
  rewrite Hsucceeds in H. destruct H as (entries & _ & Hkeys & Hnet & ->).
  assert (url_of_path env path ∈ entries.*1) as Hin
    by (rewrite Hkeys; apply list_elem_of_fmap_2, Hpath).
  apply list_elem_of_fmap in Hin as ([key r] & Hkey & Hin). cbn [fst] in Hkey. subst key.
  rewrite Forall_forall in Hnet. pose proof (Hnet _ Hin) as Hr. cbn [fst snd] in Hr.
  exists r. split; [exact Hr |]. split.
  - unfold bulk_write_succeeds in Hsucceeds.
    apply andb_true_iff in Hsucceeds as [_ Hall].
    rewrite forallb_forall in Hall. apply list_elem_of_In in Hpath.
    specialize (Hall _ Hpath). unfold fetched_ok in Hall. rewrite Hr in Hall.
    exact Hall.
  - apply cache_find_stored_all; [| exact Hin].
    rewrite Hkeys. apply (NoDup_fmap_2 _), Hnodup.
Qed.

(** Skip-waiting is reached only through two bulk writes that fulfilled. *)
Lemma install_went_through s :
  skipWaiting_called (events (onInstall env s)) = true ->
  result (precacheStatic env s) = Fulfilled tt
  /\ result (precacheImages env (storage (precacheStatic env s))) = Fulfilled tt.
Proof.
  destruct (onInstall_run env s) as (_ & _ & Hevs).
  destruct (bulk_write_run env STATIC_CACHE STATIC_ASSETS s) as (Hq1 & _ & _).
  destruct (bulk_write_run env IMAGE_CACHE
              (filter (fun url => url <> EmptyString) CRITICAL_IMAGES)
              (storage (precacheStatic env s))) as (Hq2 & _ & _).
  fold (precacheStatic env) in Hq1. fold (precacheImages env) in Hq2.
  destruct (result (precacheStatic env s)) as [[] | e1],
           (result (precacheImages env (storage (precacheStatic env s)))) as [[] | e2];
    rewrite Hevs, !skipWaiting_called_app, Hq1, Hq2; cbn; auto; discriminate.
Qed.

End PrecacheFacts.

(** X16. After an install that reached skip-waiting, each of the ten
    bootstrap paths is in the static partition and each of the six critical
    images is in the images partition, every one with the [ok] response the
    network gave for it. *)
Theorem X16_install_precaches_everything env s :
  skipWaiting_called (events (onInstall env s)) = true ->
  (forall path, path ∈ STATIC_ASSETS -> precached env s STATIC_CACHE path)
  /\ (forall path, path ∈ CRITICAL_IMAGES -> precached env s IMAGE_CACHE path).
Proof.
  intros Hcalled. destruct (install_went_through env s Hcalled) as [Hdone1 Hdone2].
  destruct (onInstall_run env s) as (_ & Hsto & _).
  unfold precached. rewrite Hsto. split; intros path Hpath.
  - destruct (bulk_write_run env IMAGE_CACHE
                (filter (fun url => url <> EmptyString) CRITICAL_IMAGES)
                (storage (precacheStatic env s))) as (_ & Hother & _).
    fold (precacheImages env) in Hother. rewrite Hother by discriminate.
    apply (bulk_write_stores env STATIC_CACHE STATIC_ASSETS s path);
      [apply (bool_decide_unpack _); vm_compute; exact I | exact Hdone1 | exact Hpath].
  - apply (bulk_write_stores env IMAGE_CACHE
             (filter (fun url => url <> EmptyString) CRITICAL_IMAGES)
             (storage (precacheStatic env s)) path);
      [apply (bool_decide_unpack _); vm_compute; exact I | exact Hdone2 | exact Hpath].
Qed.

Lemma X16_witness :
  precached online_env ∅ STATIC_CACHE "/manifest.json"
  /\ precached online_env ∅ IMAGE_CACHE "/assets/images/project-3-medium.jpg".
Proof.
  assert (skipWaiting_called (events (onInstall online_env ∅)) = true) as Hcalled
    by (vm_compute; reflexivity).
  destruct (X16_install_precaches_everything online_env ∅ Hcalled) as [Hstatic Himages].
  split; [apply Hstatic | apply Himages];
    apply (bool_decide_unpack _); vm_compute; exact I.
Defined.

(** ** The fallback and the router agree *)

(** X17. The top-level fallback classifies the path again, without the
    static-asset test, and still answers by the class the router chose: the
    placeholder for an image, the offline page for an HTML page, and the 503
    for a static asset as for a generic resource. *)
Theorem X17_fallback_follows_route env request :
  handleOfflineFallback env request =
  match route (pathname (url request)) with
  | Image => getPlaceholderImage env
  | HTMLPage => getOfflinePage env
  | StaticAsset | Dynamic => ret SERVICE_UNAVAILABLE
  end.
Proof.
  unfold handleOfflineFallback, route.
  destruct (isStaticAsset (pathname (url request))) eqn:Hs.
  - rewrite (static_not_image _ Hs), (static_not_html _ Hs). reflexivity.
  - destruct (isImage _); [reflexivity |]. destruct (isHTMLPage _); reflexivity.
Qed.

(** ** Trimming *)

(** X18. On a partition with distinct keys, [limitCacheSize] leaves the
    newest entries, as many as the bound allows and all of them when they
    fit; run again, it deletes nothing. *)
Theorem X18_limitCacheSize_idempotent env name maxSize s :
  usable env name ->
  NoDup (partition s name).*1 ->
  partition (storage (limitCacheSize env name maxSize s)) name
  = drop (length (partition s name) - maxSize) (partition s name)
  /\ length (partition (storage (limitCacheSize env name maxSize s)) name)
     = min (length (partition s name)) maxSize
  /\ partition
       (storage (limitCacheSize env name maxSize
                   (storage (limitCacheSize env name maxSize s)))) name
     = partition (storage (limitCacheSize env name maxSize s)) name
  /\ events (limitCacheSize env name maxSize
               (storage (limitCacheSize env name maxSize s)))
     = [EvCacheOpen name; EvCacheKeys name].
Proof.
  intros Husable Hnodup.
  destruct (limitCacheSize_trims env name maxSize s
              (Husable OpOpen) (Husable OpKeys) (Husable OpDelete) Hnodup)
    as (s1 & -> & Hthis & _).
  cbn [storage].
  assert (length (partition s1 name) = min (length (partition s name)) maxSize) as Hlen
    by (rewrite Hthis, length_drop; lia).
  destruct (limitCacheSize_trims env name maxSize s1
              (Husable OpOpen) (Husable OpKeys) (Husable OpDelete))
    as (s2 & -> & Hagain & _).
  { rewrite Hthis, fmap_drop. eapply sublist_NoDup; [exact Hnodup | apply sublist_drop]. }
  cbn [storage events].
  replace (length (partition s1 name) - maxSize) with 0 in * by lia.
  split; [exact Hthis |]. split; [exact Hlen |]. split; [exact Hagain | reflexivity].
Qed.

Lemma X18_witness :
  length (partition (storage (handleFetch online_env (sample_request "/about") dynamic_full))
            DYNAMIC_CACHE) = 31
  /\ length (partition
               (storage (limitCacheSize online_env DYNAMIC_CACHE MAX_DYNAMIC_CACHE_SIZE
                           (storage (handleFetch online_env (sample_request "/about")
                                       dynamic_full))))
               DYNAMIC_CACHE)
     = 30.
Proof.
  assert (length (partition
                    (storage (handleFetch online_env (sample_request "/about") dynamic_full))
                    DYNAMIC_CACHE) = 31) as Hlen by (vm_compute; reflexivity).
  split; [exact Hlen |].
  destruct (X18_limitCacheSize_idempotent online_env DYNAMIC_CACHE MAX_DYNAMIC_CACHE_SIZE
              (storage (handleFetch online_env (sample_request "/about") dynamic_full)))
    as (_ & -> & _).
  - intros op. reflexivity.
  - apply (bool_decide_unpack _). vm_compute. exact I.
  - rewrite Hlen. reflexivity.
Defined.
(** ** Activation *)

Section ActivateFacts.

Variable host : ActivateHost.

Lemma is_old_cache_spec cacheName :
  is_old_cache cacheName = false
  <-> cacheName = STATIC_CACHE \/ cacheName = DYNAMIC_CACHE \/ cacheName = IMAGE_CACHE.
Proof.
  unfold is_old_cache.
  rewrite !andb_false_iff, !negb_false_iff, !String.eqb_eq. tauto.
Qed.

Lemma delete_old_caches_lookup cacheNames s name :
  activation_storage (delete_old_caches host cacheNames s) !! name
  = if bool_decide (name ∈ cacheNames) && is_old_cache name
       && negb (delete_fails host name)
    then None else s !! name.
Proof.
  revert s. induction cacheNames as [|cacheName cacheNames IH]; intros s;
    [reflexivity |].
  set (s' := if is_old_cache cacheName
             then (if delete_fails host cacheName then s else delete cacheName s)
             else s).
  assert (activation_storage (delete_old_caches host (cacheName :: cacheNames) s)
          = activation_storage (delete_old_caches host cacheNames s')) as ->
    by (cbn [delete_old_caches]; subst s';
        destruct (is_old_cache cacheName); reflexivity).
  rewrite IH.
  assert (s' !! name
          = if bool_decide (name = cacheName) && is_old_cache name
               && negb (delete_fails host name)
            then None else s !! name) as ->.
  { subst s'. destruct (bool_decide_reflect (name = cacheName)) as [-> | Hne];
      cbn [andb].
    - destruct (is_old_cache cacheName); cbn [andb negb]; [| reflexivity].
      destruct (delete_fails host cacheName); cbn [negb];
        [reflexivity | apply lookup_delete_eq].
    - destruct (is_old_cache cacheName); [| reflexivity].
      destruct (delete_fails host cacheName); [reflexivity |].
      apply lookup_delete_ne. congruence. }
  rewrite (bool_decide_ext (name ∈ cacheName :: cacheNames)
             (name = cacheName \/ name ∈ cacheNames)) by apply elem_of_cons.
  rewrite bool_decide_or.
  destruct (bool_decide (name = cacheName)), (bool_decide (name ∈ cacheNames)),
           (is_old_cache name), (delete_fails host name); reflexivity.
Qed.

Lemma delete_old_caches_error cacheNames s :
  activation_error (delete_old_caches host cacheNames s) = None
  <-> forall name, name ∈ cacheNames -> is_old_cache name = true ->
                   delete_fails host name = false.
Proof.
  revert s. induction cacheNames as [|cacheName cacheNames IH]; intros s;
    cbn [delete_old_caches].
  - split; [intros _ name Hin; inversion Hin | reflexivity].
  - destruct (is_old_cache cacheName) eqn:Hold; cbn [activation_error].
    + destruct (delete_fails host cacheName) eqn:Hfails.
      * split; [discriminate |]. intros Hall.
        specialize (Hall cacheName (list_elem_of_here _ _) Hold). congruence.
      * rewrite IH. split; intros Hall name Hin Hname.
        -- apply elem_of_cons in Hin as [-> | Hin]; [exact Hfails | auto].
        -- apply Hall; [right; exact Hin | exact Hname].
    + rewrite IH. split; intros Hall name Hin Hname.
      * apply elem_of_cons in Hin as [-> | Hin]; [congruence | auto].
      * apply Hall; [right; exact Hin | exact Hname].
Qed.

Lemma delete_old_caches_quiet cacheNames s :
  clients_claimed (activation_calls (delete_old_caches host cacheNames s)) = false.
Proof.
  revert s. induction cacheNames as [|cacheName cacheNames IH]; intros s;
    cbn [delete_old_caches]; [reflexivity |].
  destruct (is_old_cache cacheName); [| apply IH].
  cbn [activation_calls clients_claimed existsb orb]. apply IH.
Qed.

Lemma elem_of_caches_keys (s : CacheStorage) name :
  name ∈ caches_keys s <-> is_Some (s !! name).
Proof.
  unfold caches_keys. rewrite list_elem_of_fmap. split.
  - intros ([k c] & -> & Hin). apply elem_of_map_to_list in Hin. eauto.
  - intros [c Hc]. exists (name, c). split; [reflexivity |].
    apply elem_of_map_to_list, Hc.
Qed.

End ActivateFacts.

(** X19. After the activate handler has run, a cache is gone exactly
    when its name is none of the three current ones and its deletion did
    not fail (and the listing of the caches did not fail); every other cache,
    the three current partitions among them, is as it was. *)
Theorem X19_activation_deletes_old_caches host s name :
  activation_storage (onActivate host s) !! name
  = (if negb (keys_fails host) && is_old_cache name && negb (delete_fails host name)
     then None else s !! name)
  /\ (is_old_cache name = false
      <-> name = STATIC_CACHE \/ name = DYNAMIC_CACHE \/ name = IMAGE_CACHE).
Proof.
  split; [| apply is_old_cache_spec].
  unfold onActivate. destruct (keys_fails host); cbn [negb andb]; [reflexivity |].
  assert (activation_storage (delete_old_caches host (caches_keys s) s) !! name
          = if is_old_cache name && negb (delete_fails host name)
            then None else s !! name) as Hlookup.
  { rewrite delete_old_caches_lookup.
    destruct (bool_decide_reflect (name ∈ caches_keys s)) as [Hin | Hnotin];
      cbn [andb]; [reflexivity |].
    rewrite elem_of_caches_keys in Hnotin.
    destruct (s !! name) eqn:Hs; [exfalso; eauto |].
    destruct (_ && _); reflexivity. }
  destruct (activation_error _); cbn [activation_storage]; exact Hlookup.
Qed.

(** X20. The activate handler claims the clients exactly when its
    promise fulfils, that is when the caches could be listed and every old
    cache that exists could be deleted; one deletion that fails rejects the
    promise, and the clients are not claimed. *)
Theorem X20_clients_claimed_iff_cleaned host s :
  (clients_claimed (activation_calls (onActivate host s)) = true
   <-> activation_error (onActivate host s) = None)
  /\ (activation_error (onActivate host s) = None
      <-> keys_fails host = false
          /\ forall name, is_Some (s !! name) -> is_old_cache name = true ->
                          delete_fails host name = false).
Proof.
  unfold onActivate. destruct (keys_fails host).
  { cbn. split; split; try discriminate. intros [Hkeys _]. discriminate Hkeys. }
  pose proof (delete_old_caches_error host (caches_keys s) s) as Herror.
  pose proof (delete_old_caches_quiet host (caches_keys s) s) as Hquiet.
  setoid_rewrite elem_of_caches_keys in Herror.
  destruct (activation_error (delete_old_caches host (caches_keys s) s)) as [e |];
    cbn [activation_error activation_calls clients_claimed existsb orb].
  - fold (clients_claimed (activation_calls (delete_old_caches host (caches_keys s) s))).
    rewrite Hquiet. split; [split; discriminate |].
    split; [discriminate |]. intros [_ Hall]. apply Herror in Hall. discriminate Hall.
  - split.
    + split; [reflexivity |]. intros _. rewrite existsb_app. cbn. apply orb_true_r.
    + split; [| reflexivity]. intros _. split; [reflexivity |]. apply Herror. reflexivity.
Qed.
Example activation_of_an_upgrade :
  activation_error (onActivate sound_host upgraded) = None
  /\ clients_claimed (activation_calls (onActivate sound_host upgraded)) = true
  /\ activation_storage (onActivate sound_host upgraded) !! "portfolio-dynamic-v1.0.0" = None
  /\ activation_storage (onActivate sound_host upgraded) !! CACHE_NAME = None
  /\ partition (activation_storage (onActivate sound_host upgraded)) DYNAMIC_CACHE
     = partition visited DYNAMIC_CACHE
  /\ activation_error (onActivate stuck_host upgraded)
     = Some (DeleteFailed "portfolio-dynamic-v1.0.0")
  /\ clients_claimed (activation_calls (onActivate stuck_host upgraded)) = false
  /\ activation_storage (onActivate stuck_host upgraded) !! "portfolio-static-v1.0.0" = None.
Proof. vm_compute. repeat split. Qed.

(** ** When the trimming fails *)

(** X21. When an image was fetched with an [ok] status and its put was
    started, and the trimming that follows throws (here: the keys cannot be
    listed), the caller gets the placeholder instead of the image, although
    the image is in the images partition once the request is done. (The
    request is not for the placeholder path itself.) *)
Theorem X21_image_lost_to_failed_trimming env request s r :
  isStaticAsset (pathname (url request)) = false ->
  isImage (pathname (url request)) = true ->
  readable env IMAGE_CACHE ->
  cache_fault env OpPut IMAGE_CACHE = false ->
  cache_fault env OpKeys IMAGE_CACHE = true ->
  url request <> url_of_path env "/assets/images/placeholder.jpg" ->
  cache_find (url request) (partition s IMAGE_CACHE) = None ->
  settled (network env request) = Resolves r ->
  latency (network env request) < NETWORK_TIMEOUT ->
  ok r = true ->
  result (handleFetch env request s) =
  Fulfilled
    (default SYNTHESIZED_PLACEHOLDER
       (cache_find (url_of_path env "/assets/images/placeholder.jpg")
          (partition s IMAGE_CACHE)))
  /\ cache_find (url request)
       (partition (storage (handleFetch env request s)) IMAGE_CACHE) = Some r.
Proof.
  intros Hs Hi Hread Hput Hkeys Hother Hmiss Hnet Hfast Hok.
  pose proof Hread as [Hopen Hmatch].
  unfold handleFetch. rewrite Hs, Hi. unfold handleImage, limitCacheSize.
  unfold caches_open, cache_match, cache_keys, cache_put, cache_call.
  rewrite Hopen. task_simpl. rewrite Hmatch. task_simpl.
  rewrite partition_opened, Hmiss. task_simpl.
  rewrite (fetchWithTimeout_resolves env request NETWORK_TIMEOUT r _ Hnet Hfast).
  task_simpl. rewrite Hok. task_simpl. rewrite ?Hopen. task_simpl.
  rewrite Hkeys. task_simpl.
  rewrite getPlaceholderImage_run by exact Hread. task_simpl.
  unfold put_entry. rewrite Hput.
  destruct (put_lands_first env);
    repeat (rewrite partition_opened || rewrite partition_set_eq).
  - rewrite cache_find_store_ne by congruence.
    split; [reflexivity | apply cache_find_store_eq].
  - split; [reflexivity | apply cache_find_store_eq].
Qed.

Lemma X21_witness :
  result (handleFetch keys_broken_env (photo 1) ∅) = Fulfilled SYNTHESIZED_PLACEHOLDER
  /\ cache_find (url (photo 1))
       (partition (storage (handleFetch keys_broken_env (photo 1) ∅)) IMAGE_CACHE)
     = Some (served (photo 1)).
Proof.
  assert (latency (network keys_broken_env (photo 1)) < NETWORK_TIMEOUT) as Hfast
    by (vm_compute; lia).
  assert (cache_find (url (photo 1)) (partition (∅ : CacheStorage) IMAGE_CACHE) = None)
    as Hmiss by (vm_compute; reflexivity).
  assert (url (photo 1)
          <> url_of_path keys_broken_env "/assets/images/placeholder.jpg") as Hother
    by (vm_compute; discriminate).
  destruct (X21_image_lost_to_failed_trimming keys_broken_env (photo 1) ∅
              (served (photo 1)) eq_refl eq_refl (conj eq_refl eq_refl) eq_refl eq_refl
              Hother Hmiss eq_refl Hfast eq_refl) as [Hres Hstored].
  split; [| exact Hstored].
  rewrite Hres. vm_compute. reflexivity.
Defined.

(** X22. When a generic resource was fetched with an [ok] status and its
    put was started, and the trimming that follows throws (here: the keys
    cannot be listed), the lookup of the catch block decides the answer.
    Where the put has landed by then, it is the network response; where it
    has not, it is the copy the partition held before, and without such a
    copy 503 Offline, although the network answered. Either way the network
    response is in the dynamic partition once the request is done. *)
Theorem X22_generic_after_failed_trimming env request s r :
  route (pathname (url request)) = Dynamic ->
  readable env DYNAMIC_CACHE ->
  cache_fault env OpPut DYNAMIC_CACHE = false ->
  cache_fault env OpKeys DYNAMIC_CACHE = true ->
  settled (network env request) = Resolves r ->
  latency (network env request) < NETWORK_TIMEOUT ->
  ok r = true ->
  result (handleFetch env request s) =
  Fulfilled
    (if put_lands_first env then r
     else default
            (new_Response "Offline"
               {| init_status := Some 503; init_statusText := None;
                  init_headers := [] |})
            (cache_find (url request) (partition s DYNAMIC_CACHE)))
  /\ cache_find (url request)
       (partition (storage (handleFetch env request s)) DYNAMIC_CACHE) = Some r.
Proof.
  intros Hroute [Hopen Hmatch] Hput Hkeys Hnet Hfast Hok.
  rewrite handleFetch_route, Hroute. cbn [strategy_handler].
  unfold handleDynamic, limitCacheSize.
  unfold caches_open, cache_match, cache_keys, cache_put, cache_call.
  rewrite Hopen. task_simpl.
  rewrite (fetchWithTimeout_resolves env request NETWORK_TIMEOUT r _ Hnet Hfast).
  task_simpl. rewrite Hok. task_simpl. rewrite ?Hopen. task_simpl.
  rewrite Hkeys. task_simpl. rewrite Hmatch. task_simpl.
  unfold put_entry. rewrite Hput.
  destruct (put_lands_first env) eqn:Hlands;
    repeat (rewrite partition_opened || rewrite partition_set_eq).
  - rewrite cache_find_store_eq. task_simpl. rewrite Hlands.
    repeat (rewrite partition_opened || rewrite partition_set_eq).
    split; [reflexivity | apply cache_find_store_eq].
  - destruct (cache_find (url request) (partition s DYNAMIC_CACHE)); task_simpl;
      unfold put_entry; rewrite Hlands, Hput;
      repeat (rewrite partition_opened || rewrite partition_set_eq);
      (split; [reflexivity | apply cache_find_store_eq]).
Qed.

Lemma X22_witness :
  status (served (api_item 1)) = 200
  /\ result (handleFetch keys_broken_env (api_item 1) ∅)
     = Fulfilled (new_Response "Offline"
                    {| init_status := Some 503; init_statusText := None;
                       init_headers := [] |})
  /\ cache_find (url (api_item 1))
       (partition (storage (handleFetch keys_broken_env (api_item 1) ∅)) DYNAMIC_CACHE)
     = Some (served (api_item 1)).
Proof.
  split; [reflexivity |].
  assert (latency (network keys_broken_env (api_item 1)) < NETWORK_TIMEOUT) as Hfast
    by (vm_compute; lia).
  exact (X22_generic_after_failed_trimming keys_broken_env (api_item 1) ∅
           (served (api_item 1)) eq_refl (conj eq_refl eq_refl) eq_refl eq_refl
           eq_refl Hfast eq_refl).
Defined.
